(** * cpp17-eventbus: a shallow embedding of [eventbus.h]

    The header implements a single-threaded publish/subscribe bus.  This
    development embeds its classes ([internal::Callback], [EventBus],
    [Listener]) and proves properties of registration, removal and the two
    dispatch paths ([immediate], [post]/[process]).

    Conventions of the embedding:
    - [std::type_index] keys are natural numbers, [int] listener ids are
      integers, a [std::any] is the type it holds and a payload;
    - a value given to [immediate] or [post] is of an event type of the
      caller, an object type that a [std::any] holds as what it is, or is
      itself a [std::any], which the templates copy instead of wrapping;
    - [std::map] is a [gmap]; the vectors of the registry are lists; the
      vector of postponed events also carries its capacity and the identity
      of its buffer, because [process] iterates over it while callbacks may
      append to it;
    - a callback is user code: here it records its invocation in a trace and
      may call [post] on the bus that dispatches it.  Callbacks that change
      subscriptions or re-enter dispatch are outside the model. *)

From stdpp Require Import base option list gmap.

Open Scope Z_scope.

(** ** Data model *)

(** [internal::event_id_t] *)
Abbreviation event_id_t := nat (only parsing).

(** [std::any]: the dynamic type of the held value and the value. *)
Record any := Any { any_type : event_id_t; any_value : Z }.

(** [typeid(std::any)]; the event types of callers have the other keys. *)
Definition any_id : event_id_t := 0%nat.

(** A value handed to [immediate<Event>] or [post<Event>], with its static
    type [Event]: of an event type of the caller, or a [std::any] (which may
    hold a value of any type, or another [std::any]). *)
Inductive event : Type :=
| Plain (ty : positive) (v : Z)
| Erased (a : any).

(** [internal::event_id<Event>()], for the static type of the value. *)
Definition event_id (x : event) : event_id_t :=
  match x with
  | Plain ty _ => Pos.to_nat ty
  | Erased _ => any_id
  end.

(** The [std::any] that the value initialises where the templates pass it
    on: a value of an event type is wrapped, a [std::any] is copied. *)
Definition to_any (x : event) : any :=
  match x with
  | Plain ty v => {| any_type := Pos.to_nat ty; any_value := v |}
  | Erased a => a
  end.

(** The target of a [std::function<void(const Event&)>]: [fn_name] identifies
    it in the trace, [fn_posts v] are the events it posts when called on [v]. *)
Record target := Target { fn_name : nat; fn_posts : Z → list event }.

(** [callback_t]; [None] is the empty [std::function]. *)
Abbreviation callback_t := (option target) (only parsing).

(** [internal::Callback<Event>]: [cb_event] is the template argument. *)
Record Callback := MkCallback { cb_event : event_id_t; cb : callback_t }.

(** [EventBus::ListenerCallbacks] *)
Record ListenerCallbacks := MkListenerCallbacks {
  listener_id : Z;
  calls : list Callback
}.

Abbreviation EventListeners := (list ListenerCallbacks) (only parsing).
Abbreviation ListenersMap := (gmap nat (list ListenerCallbacks)) (only parsing).

(** [EventBus::Postponded], with its fields [id] and [event]. *)
Record Postponded := MkPostponded { pe_id : event_id_t; pe_event : any }.

(** [std::vector<T>] with what decides iterator validity: [buffer] names the
    current allocation and changes at every reallocation. *)
Record vector (T : Type) := MkVector {
  data : list T;
  capacity : nat;
  buffer : nat
}.
Arguments MkVector {T} _ _ _.
Arguments data {T} _.
Arguments capacity {T} _.
Arguments buffer {T} _.

Record EventBus := MkEventBus {
  m_lastListenerId : Z;
  m_listeners : gmap nat (list ListenerCallbacks);
  m_postpondedEvents : vector Postponded
}.

(** A default-constructed bus. *)
Definition new_bus : EventBus :=
  {| m_lastListenerId := 0; m_listeners := ∅;
     m_postpondedEvents := MkVector [] 0 0 |}.

(** The new bus once [n] handles have been constructed on it. *)
Definition bus_of_handles (n : Z) : EventBus :=
  {| m_lastListenerId := n; m_listeners := ∅;
     m_postpondedEvents := MkVector [] 0 0 |}.

Definition set_listeners (m : gmap nat (list ListenerCallbacks)) (b : EventBus) : EventBus :=
  {| m_lastListenerId := m_lastListenerId b; m_listeners := m;
     m_postpondedEvents := m_postpondedEvents b |}.

Definition set_postponded (q : vector Postponded) (b : EventBus) : EventBus :=
  {| m_lastListenerId := m_lastListenerId b; m_listeners := m_listeners b;
     m_postpondedEvents := q |}.

(** ** Vector helpers *)

(** [internal::erase_if]: one pass, erasing every element [pred] accepts. *)
Fixpoint erase_if {T : Type} (pred : T → bool) (v : list T) : list T :=
  match v with
  | [] => []
  | x :: v' => if pred x then erase_if pred v' else x :: erase_if pred v'
  end.

(** The predicate both [removeListener] overloads pass to [erase_if]. *)
Definition owned_by (lid : Z) (elem : ListenerCallbacks) : bool :=
  Z.eqb (listener_id elem) lid.

(** ** Registry operations of [EventBus] *)

Definition INT_MAX : Z := 2147483647.

(** [getNewListenerId]: [++m_lastListenerId]; signed overflow is not defined. *)
Definition getNewListenerId (b : EventBus) : option (Z * EventBus) :=
  if decide (m_lastListenerId b < INT_MAX) then
    Some (m_lastListenerId b + 1,
          {| m_lastListenerId := m_lastListenerId b + 1;
             m_listeners := m_listeners b;
             m_postpondedEvents := m_postpondedEvents b |})
  else None.

(** The [find_if] / [push_back] / [emplace_back] part of [addListener], on the
    vector found under the key. *)
Fixpoint add_call (lid : Z) (c : Callback) (els : list ListenerCallbacks)
  : list ListenerCallbacks :=
  match els with
  | [] => [ {| listener_id := lid; calls := [c] |} ]
  | el :: rest =>
      if owned_by lid el
      then {| listener_id := listener_id el; calls := calls el ++ [c] |} :: rest
      else el :: add_call lid c rest
  end.

(** [addListener(id, listener_id, callback)]; [m_listeners[id]] creates an
    empty vector when the key is new. *)
Definition addListener (ev : event_id_t) (lid : Z) (c : Callback) (b : EventBus) : EventBus :=
  set_listeners
    (<[ev := add_call lid c (default [] (m_listeners b !! ev))]> (m_listeners b)) b.

(** What both removals do to one vector: erase, then tell whether the key
    stays. *)
Definition prune (lid : Z) (els : list ListenerCallbacks) : option (list ListenerCallbacks) :=
  match erase_if (owned_by lid) els with
  | [] => None
  | el :: rest => Some (el :: rest)
  end.

(** [removeListener(id, listener_id)] *)
Definition removeListener (ev : event_id_t) (lid : Z) (b : EventBus) : EventBus :=
  match m_listeners b !! ev with
  | None => b
  | Some els =>
      match prune lid els with
      | Some els' => set_listeners (<[ev := els']> (m_listeners b)) b
      | None => set_listeners (delete ev (m_listeners b)) b
      end
  end.

(** [removeListener(listener_id)]: the same at every key. *)
Definition removeListener_all (lid : Z) (b : EventBus) : EventBus :=
  set_listeners (omap (prune lid) (m_listeners b)) b.

(** ** Dispatch *)

(** What a run of bus code can see and change: the bus, and the trace of the
    user functions called so far ([fn_name], argument), oldest first. *)
Record World := MkWorld { bus : EventBus; trace : list (nat * Z) }.

(** How a [void] member function ends. *)
Inductive outcome : Type :=
| Done (w : World)          (* returns *)
| BadAnyCast (w : World)    (* [std::bad_any_cast] leaves it, in world [w] *)
| Undefined.                (* the language defines no behaviour *)

Abbreviation action := (World → outcome) (only parsing).

Definition skip : World → outcome := Done.

Definition seq (a1 a2 : World → outcome) : World → outcome :=
  fun w => match a1 w with
           | Done w' => a2 w'
           | BadAnyCast w' => BadAnyCast w'
           | Undefined => Undefined
           end.

Declare Scope action_scope.
Delimit Scope action_scope with act.
Notation "a1 ;; a2" := (seq a1 a2) (at level 100, right associativity) : action_scope.

(** A range-based [for] over a container the body does not invalidate. *)
Fixpoint for_each {T : Type} (body : T → World → outcome) (v : list T) : World → outcome :=
  match v with
  | [] => skip
  | x :: v' => (body x ;; for_each body v')%act
  end.

Definition on_bus (f : EventBus → EventBus) : World → outcome :=
  fun w => Done {| bus := f (bus w); trace := trace w |}.

Definition record_call (name : nat) (v : Z) : World → outcome :=
  fun w => Done {| bus := bus w; trace := trace w ++ [(name, v)] |}.

(** The capacity a full vector of capacity [c] asks for when it grows; the
    standard leaves it to the implementation. *)
Class GrowthPolicy := grow : nat → nat.

(** [std::vector::emplace_back]: in place while the capacity lasts,
    otherwise into a new buffer. *)
Definition emplace_back `{G : GrowthPolicy} {T : Type} (x : T) (v : vector T) : vector T :=
  if decide (length (data v) < capacity v)%nat
  then MkVector (data v ++ [x]) (capacity v) (buffer v)
  else MkVector (data v ++ [x])
                (Nat.max (S (length (data v))) (grow (capacity v)))
                (S (buffer v)).

(** [std::vector::clear]: the elements go, the buffer stays. *)
Definition clear {T : Type} (v : vector T) : vector T :=
  MkVector [] (capacity v) (buffer v).

(** [post<Event>(e)]: [Postponded{ event_id<Event>(), e }] *)
Definition post `{G : GrowthPolicy} (x : event) : World → outcome :=
  on_bus (fun b =>
    set_postponded
      (emplace_back {| pe_id := event_id x; pe_event := to_any x |}
         (m_postpondedEvents b)) b).

(** A call of a non-empty [std::function]. *)
Definition call `{G : GrowthPolicy} (t : target) (v : Z) : World → outcome :=
  (record_call (fn_name t) v ;; for_each post (fn_posts t v))%act.

(** [Callback<Event>::execute(std::any e)]:
    [if (cb) cb(std::any_cast<Event>(e));] *)
Definition execute `{G : GrowthPolicy} (c : Callback) (e : any) : World → outcome :=
  match cb c with
  | None => skip
  | Some t =>
      if decide (any_type e = cb_event c) then call t (any_value e)
      else BadAnyCast
  end.

(** The inner loop of [immediate], over the callbacks of one listener. *)
Definition run_calls `{G : GrowthPolicy} (cs : list Callback) (e : any) : World → outcome :=
  for_each (fun c => execute c e) cs.

(** The two nested loops of [immediate]. *)
Definition dispatch `{G : GrowthPolicy} (els : list ListenerCallbacks) (e : any) : World → outcome :=
  for_each (fun el => run_calls (calls el) e) els.

(** The private [immediate(event_id_t id, std::any e)]. *)
Definition immediate_any `{G : GrowthPolicy} (ev : event_id_t) (e : any) : World → outcome :=
  fun w => match m_listeners (bus w) !! ev with
           | None => Done w
           | Some els => dispatch els e w
           end.

(** The public [immediate<Event>(Event e)]: the key is that of the static
    type, the [std::any] parameter of the private overload is initialised
    from [e]. *)
Definition immediate `{G : GrowthPolicy} (x : event) : World → outcome :=
  immediate_any (event_id x) (to_any x).

(** The iterators of the range-based [for] in [process] were taken from
    buffer [buf]; using them after a reallocation is not defined. *)
Definition check_iterators (buf : nat) : World → outcome :=
  fun w => if decide (buffer (m_postpondedEvents (bus w)) = buf) then Done w
           else Undefined.

Fixpoint process_loop `{G : GrowthPolicy} (buf : nat) (pes : list Postponded) : World → outcome :=
  match pes with
  | [] => skip
  | pe :: rest =>
      (immediate_any (pe_id pe) (pe_event pe) ;;
       check_iterators buf ;;
       process_loop buf rest)%act
  end.

Definition clear_postponded : World → outcome :=
  on_bus (fun b => set_postponded (clear (m_postpondedEvents b)) b).

(** [process()] *)
Definition process `{G : GrowthPolicy} : World → outcome :=
  fun w =>
    let v := m_postpondedEvents (bus w) in
    (process_loop (buffer v) (data v) ;; clear_postponded)%act w.

(** ** The [Listener] handle *)

(** [m_bus] is [None] for a null [shared_ptr], else the address of the bus
    the handle shares. *)
Record Listener := MkListener { m_listenerId : Z; m_bus : option nat }.

(** [if (m_bus) m_bus->f(...)], on the store of live buses.  Shared ownership
    keeps the bus of a handle alive, so [alter] finds it. *)
Definition if_bus (l : Listener) (f : EventBus → EventBus)
    (h : gmap nat EventBus) : gmap nat EventBus :=
  match m_bus l with
  | None => h
  | Some a => alter f a h
  end.

(** [listen<Event>(callback)] *)
Definition listen (l : Listener) (ev : event_id_t) (callback : callback_t)
    : gmap nat EventBus → gmap nat EventBus :=
  if_bus l (addListener ev (m_listenerId l) {| cb_event := ev; cb := callback |}).

(** [unlisten<Event>()] *)
Definition unlisten (l : Listener) (ev : event_id_t)
    : gmap nat EventBus → gmap nat EventBus :=
  if_bus l (removeListener ev (m_listenerId l)).

(** [unlistenAll()] *)
Definition unlistenAll (l : Listener) : gmap nat EventBus → gmap nat EventBus :=
  if_bus l (removeListener_all (m_listenerId l)).

(** [~Listener()] *)
Definition Listener_destroy (l : Listener) : gmap nat EventBus → gmap nat EventBus :=
  unlistenAll l.

(** [Listener(bus)]: the initialiser calls [bus->getNewListenerId()] without
    a test.  [None] where the language defines no result: for a null [bus],
    and when the counter overflows. *)
Definition Listener_new (p : option nat) (h : gmap nat EventBus)
    : option (Listener * gmap nat EventBus) :=
  a ← p;
  b ← h !! a;
  r ← getNewListenerId b;
  Some ({| m_listenerId := r.1; m_bus := Some a |}, <[a := r.2]> h).

(** ** Subscription histories *)

(** What handles ask of one bus: [Listen lid ev f] is [listen<ev>(f)] on the
    handle with id [lid], and so on. *)
Inductive handle_op : Type :=
| Listen (lid : Z) (ev : event_id_t) (f : callback_t)
| Unlisten (lid : Z) (ev : event_id_t)
| UnlistenAll (lid : Z).

Definition run_op (b : EventBus) (o : handle_op) : EventBus :=
  match o with
  | Listen lid ev f => addListener ev lid {| cb_event := ev; cb := f |} b
  | Unlisten lid ev => removeListener ev lid b
  | UnlistenAll lid => removeListener_all lid b
  end.

Definition run_ops (b : EventBus) (ops : list handle_op) : EventBus :=
  foldl run_op b ops.

(** The registrations for [ev] that a history leaves in force, oldest first,
    each with the id of the subscriber that made it. *)
Definition live_step (ev : event_id_t) (L : list (Z * Callback)) (o : handle_op)
    : list (Z * Callback) :=
  match o with
  | Listen lid ev' f =>
      if decide (ev' = ev) then L ++ [(lid, {| cb_event := ev'; cb := f |})] else L
  | Unlisten lid ev' =>
      if decide (ev' = ev) then filter (λ r, r.1 ≠ lid) L else L
  | UnlistenAll lid => filter (λ r, r.1 ≠ lid) L
  end.

Definition live (ev : event_id_t) (ops : list handle_op) : list (Z * Callback) :=
  foldl (live_step ev) [] ops.

(** The subscribers that registered for [ev] in a history, in the order in
    which each of them first did. *)
Definition registered (ev : event_id_t) (o : handle_op) : option Z :=
  match o with
  | Listen lid ev' _ => if decide (ev' = ev) then Some lid else None
  | Unlisten _ _ | UnlistenAll _ => None
  end.

(** The elements of a list, each at its first occurrence. *)
Fixpoint first_occurrences (l : list Z) : list Z :=
  match l with
  | [] => []
  | x :: l' => x :: filter (λ y, y ≠ x) (first_occurrences l')
  end.

Definition first_registered (ev : event_id_t) (ops : list handle_op) : list Z :=
  first_occurrences (omap (registered ev) ops).

(** The callbacks subscriber [lid] registered, in registration order. *)
Definition callbacks_of (lid : Z) (L : list (Z * Callback)) : list Callback :=
  (filter (λ r, r.1 = lid) L).*2.

(** The order the specification gives to a dispatch: subscribers by their
    first registration, the callbacks of each in registration order. *)
Definition groups_of (L : list (Z * Callback)) : list ListenerCallbacks :=
  (λ lid, {| listener_id := lid; calls := callbacks_of lid L |})
    <$> first_occurrences (L.*1).

Definition dispatch_order (L : list (Z * Callback)) : list Callback :=
  first_occurrences (L.*1) ≫= (λ lid, callbacks_of lid L).

(** What the calls of a list of callbacks on [e] add to the trace. *)
Definition calls_trace (cs : list Callback) (e : any) : list (nat * Z) :=
  omap (λ c, (λ t, (fn_name t, any_value e)) <$> cb c) cs.

(** The calls of the first group [lid] owns in a vector, as [find_if] sees
    it. *)
Fixpoint calls_for (lid : Z) (els : list ListenerCallbacks) : list Callback :=
  match els with
  | [] => []
  | el :: rest => if owned_by lid el then calls el else calls_for lid rest
  end.

(** What the registry holds under a key for a vector of groups: nothing when
    the vector is empty. *)
Definition entry_of (els : list ListenerCallbacks) : option (list ListenerCallbacks) :=
  match els with
  | [] => None
  | _ :: _ => Some els
  end.

(** The calls of the groups before and after the first group [lid] owns in
    a vector, in dispatch order. *)
Fixpoint calls_before (lid : Z) (els : list ListenerCallbacks) : list Callback :=
  match els with
  | [] => []
  | el :: rest => if owned_by lid el then [] else calls el ++ calls_before lid rest
  end.

Fixpoint calls_after (lid : Z) (els : list ListenerCallbacks) : list Callback :=
  match els with
  | [] => []
  | el :: rest => if owned_by lid el then rest ≫= calls else calls_after lid rest
  end.

(** ** Predicates on states *)

(** Every key holds a non-empty vector in which no listener id repeats. *)
Definition wf_listeners (m : gmap nat (list ListenerCallbacks)) : Prop :=
  ∀ ev els, m !! ev = Some els → els ≠ [] ∧ NoDup (listener_id <$> els).

(** Every callback is stored under the key of its own event type, as
    [listen] stores it. *)
Definition typed_listeners (m : gmap nat (list ListenerCallbacks)) : Prop :=
  ∀ ev els el c, m !! ev = Some els → el ∈ els → c ∈ calls el → cb_event c = ev.

(** Every postponed [std::any] holds the type of the key it is queued
    under, as [post] queues every event that is not itself a [std::any]. *)
Definition typed_queue (q : list Postponded) : Prop :=
  Forall (λ pe, pe_id pe = any_type (pe_event pe)) q.

(** No registered callback posts. *)
Definition quiet_listeners (m : gmap nat (list ListenerCallbacks)) : Prop :=
  ∀ ev els el c t v,
    m !! ev = Some els → el ∈ els → c ∈ calls el → cb c = Some t → fn_posts t v = [].

(** What [post] queues for an event. *)
Definition entry (x : event) : Postponded :=
  {| pe_id := event_id x; pe_event := to_any x |}.

(** The dispatch of each postponed event of a list, first to last; for the
    entries of events it is [immediate] of each. *)
Definition emit_each `{G : GrowthPolicy} (pes : list Postponded) : World → outcome :=
  for_each (λ pe, immediate_any (pe_id pe) (pe_event pe)) pes.

(** ** What dispatch can change *)

(** [grows w w']: from [w] to [w'] the registry and the id counter stayed,
    the postponed events and the trace were only appended to, and the vector
    stayed in its buffer or moved to a later one. *)
Record grows (w w' : World) : Prop := MkGrows {
  grows_listeners : m_listeners (bus w') = m_listeners (bus w);
  grows_lastListenerId : m_lastListenerId (bus w') = m_lastListenerId (bus w);
  grows_data :
    data (m_postpondedEvents (bus w)) `prefix_of` data (m_postpondedEvents (bus w'));
  grows_buffer :
    (buffer (m_postpondedEvents (bus w)) ≤ buffer (m_postpondedEvents (bus w')))%nat;
  grows_trace : trace w `prefix_of` trace w'
}.

(** An action that always ends, by returning or by throwing, in a world grown
    from the one it started in. *)
Definition appends (a : World → outcome) : Prop :=
  ∀ w, match a w with
       | Done w' | BadAnyCast w' => grows w w'
       | Undefined => False
       end.

(** The same world with another registry, and the same on outcomes. *)
Definition with_listeners (m : gmap nat (list ListenerCallbacks)) (w : World) : World :=
  {| bus := set_listeners m (bus w); trace := trace w |}.

Definition map_outcome (f : World → World) (r : outcome) : outcome :=
  match r with
  | Done w => Done (f w)
  | BadAnyCast w => BadAnyCast (f w)
  | Undefined => Undefined
  end.

(** An action that does not look at the registry. *)
Definition oblivious (a : World → outcome) : Prop :=
  ∀ m w, a (with_listeners m w) = map_outcome (with_listeners m) (a w).

(** A registry without its empty callbacks. *)
Definition strip_group (el : ListenerCallbacks) : ListenerCallbacks :=
  {| listener_id := listener_id el;
     calls := filter (λ c, is_Some (cb c)) (calls el) |}.

Definition strip_null (m : gmap nat (list ListenerCallbacks))
    : gmap nat (list ListenerCallbacks) :=
  (λ els : list ListenerCallbacks, strip_group <$> els) <$> m.

(** ** Reachable worlds *)

Definition with_bus (b : EventBus) (w : World) : World :=
  {| bus := b; trace := trace w |}.

Inductive bus_step `{G : GrowthPolicy} (w : World) : World → Prop :=
| step_getNewListenerId r :
    getNewListenerId (bus w) = Some r → bus_step w (with_bus r.2 w)
| step_addListener ev lid c :
    bus_step w (with_bus (addListener ev lid c (bus w)) w)
| step_removeListener ev lid :
    bus_step w (with_bus (removeListener ev lid (bus w)) w)
| step_removeListener_all lid :
    bus_step w (with_bus (removeListener_all lid (bus w)) w)
| step_post x w' : post x w = Done w' → bus_step w w'
| step_immediate x w' : immediate x w = Done w' → bus_step w w'
| step_immediate_throws x w' : immediate x w = BadAnyCast w' → bus_step w w'
| step_process w' : process w = Done w' → bus_step w w'
| step_process_throws w' : process w = BadAnyCast w' → bus_step w w'.

Definition reachable `{G : GrowthPolicy} (w : World) : Prop :=
  rtc bus_step {| bus := new_bus; trace := [] |} w.

(** ** Sample values *)

(** The policy of libstdc++: a full vector doubles (and a vector without a
    buffer gets room for one element). *)
Definition doubling : GrowthPolicy := λ c, Nat.max 1 (2 * c).

(** Two event types, [Ping{n}] and [Pong{n}]: the events, and the
    [std::any] values made of them. *)
Definition ping (n : Z) : event := Plain 1 n.
Definition pong (n : Z) : event := Plain 2 n.
Definition Ping (n : Z) : any := Any 1 n.
Definition Pong (n : Z) : any := Any 2 n.

(** Callbacks that only get called, and one that answers each [Ping{n}] by
    posting [Pong{n}]. *)
Definition cb1 : target := Target 1 (λ _, []).
Definition cb2 : target := Target 2 (λ _, []).
Definition answer : target := Target 3 (λ n, [pong n]).

(** Subscriber 1 listens to [Ping] and [Pong], subscriber 2 to [Ping]. *)
Definition two_subscribers : EventBus :=
  run_ops new_bus
    [Listen 1 1%nat (Some cb1); Listen 2 1%nat (Some cb2); Listen 1 2%nat (Some cb1)].

(** Subscriber 3 registers for [Ping], then subscriber 1, then subscriber 2;
    subscriber 1 revokes everything and registers again, now with the
    answering callback, and subscriber 2 registers a second callback. *)
Definition comes_back : list handle_op :=
  [ Listen 3 1%nat (Some cb2); Listen 1 1%nat (Some cb1); Listen 2 1%nat (Some cb2);
    UnlistenAll 1; Listen 1 1%nat (Some answer); Listen 2 1%nat (Some cb1) ].

(** Subscriber 1 registers for [Ping] before subscriber 2, revokes the
    registration and registers again. *)
Definition rereg : list handle_op :=
  [ Listen 1 1%nat (Some cb1); Listen 2 1%nat (Some cb2); Unlisten 1 1%nat;
    Listen 1 1%nat (Some cb1) ].


(** A postponed [Ping{5}] on a bus without subscribers. *)
Definition unheard_ping : World :=
  {| bus := set_postponded (MkVector [ {| pe_id := 1; pe_event := Ping 5 |} ] 1 1) new_bus;
     trace := [] |}.

(** Subscriber 1 answers [Ping] by posting [Pong]; subscriber 2 listens to
    [Pong]. *)
Definition answering_bus (q : vector Postponded) : EventBus :=
  set_postponded q
    (run_ops new_bus [Listen 1 1%nat (Some answer); Listen 2 2%nat (Some cb2)]).

(** [Ping{5}] postponed on that bus, in a vector that has room for one more
    event, and in a vector that is full. *)
Definition ping_with_room : World :=
  {| bus := answering_bus (MkVector [ {| pe_id := 1; pe_event := Ping 5 |} ] 2 2);
     trace := [] |}.

Definition ping_when_full : World :=
  {| bus := answering_bus (MkVector [ {| pe_id := 1; pe_event := Ping 5 |} ] 1 1);
     trace := [] |}.

(** The world [process] leaves from [ping_with_room]: the answer was called,
    nothing is postponed. *)
Definition after_ping : World :=
  {| bus := answering_bus (MkVector [] 2 2); trace := [(3%nat, 5)] |}.

(** [Ping{5}] postponed on a bus where subscriber 1 registered an empty
    function between two callbacks. *)
Definition with_empty : World :=
  {| bus := set_postponded (MkVector [ {| pe_id := 1; pe_event := Ping 5 |} ] 1 1)
              (run_ops new_bus
                 [Listen 1 1%nat (Some cb1); Listen 1 1%nat None; Listen 1 1%nat (Some cb2)]);
     trace := [] |}.

(** A handle of subscriber 7 on the bus at address 0, and a store with the
    bus of the two subscribers at that address. *)
Definition bound : Listener := {| m_listenerId := 7; m_bus := Some 0%nat |}.
Definition one_bus : gmap nat EventBus := {[ 0%nat := two_subscribers ]}.

(** Subscriber 1 then subscriber 2 register for [Ping]; later subscriber 1
    revokes everything. *)
Definition both_listen : EventBus :=
  run_ops new_bus [Listen 1 1%nat (Some cb1); Listen 2 1%nat (Some cb2)].

Definition one_left : EventBus := run_ops both_listen [UnlistenAll 1].

(** ** Further definitions *)

(** [internal::contains]; the [==] of the element type is a decidable
    equality. *)
Fixpoint contains {T : Type} `{EqDecision T} (v : list T) (item : T) : bool :=
  match v with
  | [] => false
  | t :: v' => if decide (t = item) then true else contains v' item
  end.

(** Every group holds at least one callback. *)
Definition full_groups (m : gmap nat (list ListenerCallbacks)) : Prop :=
  ∀ ev els el, m !! ev = Some els → el ∈ els → calls el ≠ [].

(** No group under any key belongs to listener [lid]. *)
Definition unknown_listener (lid : Z) (m : gmap nat (list ListenerCallbacks)) : Prop :=
  ∀ ev els el, m !! ev = Some els → el ∈ els → listener_id el ≠ lid.

(** An action under which a property of worlds, once true, stays true. *)
Definition preserves (P : World → Prop) (a : World → outcome) : Prop :=
  ∀ w, P w → match a w with
             | Done w' | BadAnyCast w' => P w'
             | Undefined => True
             end.

(** The handle an operation belongs to. *)
Definition op_listener (o : handle_op) : Z :=
  match o with
  | Listen lid _ _ | Unlisten lid _ | UnlistenAll lid => lid
  end.

(** What the public interface lets its users do to a bus: construct a
    handle, call [listen], [unlisten], [unlistenAll] or the destructor of a
    handle (whose id is one of those [getNewListenerId] has given out),
    [post], [immediate], [process]. *)
Inductive api_step `{G : GrowthPolicy} (w : World) : World → Prop :=
| api_Listener r :
    getNewListenerId (bus w) = Some r → api_step w (with_bus r.2 w)
| api_handle o :
    0 < op_listener o ≤ m_lastListenerId (bus w) →
    api_step w (with_bus (run_op (bus w) o) w)
| api_post x w' : post x w = Done w' → api_step w w'
| api_immediate x w' : immediate x w = Done w' → api_step w w'
| api_immediate_throws x w' : immediate x w = BadAnyCast w' → api_step w w'
| api_process w' : process w = Done w' → api_step w w'
| api_process_throws w' : process w = BadAnyCast w' → api_step w w'.

Definition api_reachable `{G : GrowthPolicy} (w : World) : Prop :=
  rtc api_step {| bus := new_bus; trace := [] |} w.

(** What the dispatch of each postponed event of a list adds to the trace on
    a bus with registry [m], when every callback runs. *)
Definition delivered (m : gmap nat (list ListenerCallbacks)) (pes : list Postponded)
    : list (nat * Z) :=
  pes ≫= (λ pe, calls_trace (default [] (m !! pe_id pe) ≫= calls) (pe_event pe)).

(** A callback for [Pong] stored under the key of [Ping], as only the
    private [addListener] can store it, and [Ping{5}] postponed on that
    bus. *)
Definition misfiled : World :=
  {| bus := set_postponded (MkVector [ {| pe_id := 1; pe_event := Ping 5 |} ] 1 1)
              (addListener 1%nat 2 {| cb_event := 2; cb := Some cb2 |}
                 (addListener 1%nat 1 {| cb_event := 1; cb := Some cb1 |} new_bus));
     trace := [] |}.

(** What a handle with id 9 may do in its life. *)
Definition life_of_9 : list handle_op :=
  [ Listen 9 1%nat (Some answer); Listen 9 3%nat (Some cb1); Unlisten 9 3%nat;
    Listen 9 1%nat None; Listen 9 2%nat (Some cb2) ].

(** Every postponed event is queued as [post] queues it: under the key of
    the type its [std::any] holds, or under the key of [std::any]. *)
Definition queue_posted (w : World) : Prop :=
  Forall (λ pe, pe_id pe = any_type (pe_event pe) ∨ pe_id pe = any_id)
    (data (m_postpondedEvents (bus w))).

(** Two handles were constructed, both listen to [Ping], and [Ping{5}] was
    posted. *)
Definition ping_posted : World :=
  {| bus := set_postponded (MkVector [ entry (ping 5) ] 1 1)
              (run_ops (bus_of_handles 2)
                 [Listen 1 1%nat (Some cb1); Listen 2 1%nat (Some cb2)]);
     trace := [] |}.

(** One handle was constructed and listens to [std::any]; a [std::any] that
    holds [Ping{5}] was posted as such. *)
Definition any_posted : World :=
  {| bus := set_postponded (MkVector [ entry (Erased (Ping 5)) ] 1 1)
              (run_ops (bus_of_handles 1) [Listen 1 any_id (Some cb1)]);
     trace := [] |}.

(** A handle's registrations, as history of its bus. *)
Definition listens (lid : Z) (regs : list (nat * option target)) : list handle_op :=
  (λ r, Listen lid r.1 r.2) <$> regs.

(** The registrations a handle makes in the run below. *)
Definition some_regs : list (nat * option target) :=
  [ (1%nat, Some answer); (3%nat, Some cb1); (1%nat, None) ].

(** The bus of the two subscribers after it has given out their ids, alone
    in a store. *)
Definition two_counted : EventBus :=
  {| m_lastListenerId := 2; m_listeners := m_listeners two_subscribers;
     m_postpondedEvents := m_postpondedEvents two_subscribers |}.

Definition counted_store : gmap nat EventBus := {[ 0%nat := two_counted ]}.

(** One handle was constructed, and its callback answers [Ping] by posting
    [Pong]; [Ping{5}] and [Ping{6}] have been posted and fill the vector. *)
Definition two_pings : World :=
  {| bus := set_postponded (MkVector [ entry (ping 5); entry (ping 6) ] 2 2)
              (run_ops (bus_of_handles 1) [Listen 1 1%nat (Some answer)]);
     trace := [] |}.

(** One handle was constructed and has called [listen<std::any>] twice. *)
Definition any_listeners : EventBus :=
  run_ops (bus_of_handles 1)
    [Listen 1 any_id (Some cb1); Listen 1 any_id (Some cb2)].

(** * Proofs *)

(** ** [erase_if] and the vectors of the registry *)

Lemma erase_if_owned_by lid (els : list ListenerCallbacks) :
  erase_if (owned_by lid) els = filter (λ el, listener_id el ≠ lid) els.
Proof.
  induction els as [|el els IH]; [done|].
  cbn [erase_if]. unfold owned_by at 1.
  destruct (Z.eqb_spec (listener_id el) lid) as [Heq|Hne].
  - rewrite filter_cons_False by (intros ?; done). exact IH.
  - rewrite filter_cons_True by done. by rewrite IH.
Qed.

Lemma owned_by_true lid el : owned_by lid el = true ↔ listener_id el = lid.
Proof. unfold owned_by. apply Z.eqb_eq. Qed.

Lemma owned_by_false lid el : owned_by lid el = false ↔ listener_id el ≠ lid.
Proof. unfold owned_by. apply Z.eqb_neq. Qed.

Lemma prune_Some lid els els' :
  prune lid els = Some els' ↔
  els' ≠ [] ∧ els' = filter (λ el, listener_id el ≠ lid) els.
Proof.
  unfold prune. rewrite erase_if_owned_by.
  destruct (filter _ els) as [|el rest]; split.
  - done.
  - intros [? ->]. done.
  - intros [= <-]. done.
  - intros [_ ->]. done.
Qed.

Lemma prune_None lid els :
  prune lid els = None ↔ filter (λ el, listener_id el ≠ lid) els = [].
Proof.
  unfold prune. rewrite erase_if_owned_by.
  by destruct (filter _ els).
Qed.

Lemma filter_all {A} (P : A → Prop) `{∀ x, Decision (P x)} (l : list A) :
  Forall P l → filter P l = l.
Proof.
  induction 1 as [|x l Hx _ IH]; [done|].
  by rewrite filter_cons_True, IH.
Qed.

Lemma prune_prune lid els els' :
  prune lid els = Some els' → prune lid els' = Some els'.
Proof.
  intros [Hne ->]%prune_Some. apply prune_Some. split; [done|].
  by rewrite list_filter_filter_l.
Qed.

Lemma prune_absent lid els :
  els ≠ [] → Forall (λ el, listener_id el ≠ lid) els → prune lid els = Some els.
Proof.
  intros Hne Hall. apply prune_Some. split; [done|].
  by rewrite filter_all.
Qed.

Lemma add_call_nonempty lid c els : add_call lid c els ≠ [].
Proof. destruct els as [|el rest]; cbn; [done|]. by destruct (owned_by lid el). Qed.

Lemma add_call_ids_present lid c els :
  lid ∈ listener_id <$> els →
  listener_id <$> add_call lid c els = listener_id <$> els.
Proof.
  induction els as [|el els IH]; cbn.
  - by intros ?%elem_of_nil.
  - destruct (owned_by lid el) eqn:E; [done|].
    apply owned_by_false in E.
    intros [?|Hin]%elem_of_cons; [congruence|].
    cbn. by rewrite IH.
Qed.

Lemma add_call_ids_absent lid c els :
  lid ∉ listener_id <$> els →
  listener_id <$> add_call lid c els = (listener_id <$> els) ++ [lid].
Proof.
  induction els as [|el els IH]; cbn; [done|].
  intros Hnin. apply not_elem_of_cons in Hnin as [Hne Hnin].
  destruct (owned_by lid el) eqn:E.
  - apply owned_by_true in E. congruence.
  - cbn. by rewrite IH.
Qed.

Lemma add_call_NoDup lid c els :
  NoDup (listener_id <$> els) → NoDup (listener_id <$> add_call lid c els).
Proof.
  intros Hnd.
  destruct (decide (lid ∈ listener_id <$> els)) as [Hin|Hnin].
  - by rewrite add_call_ids_present.
  - rewrite add_call_ids_absent by done.
    apply NoDup_app. split_and!; [done| |apply NoDup_singleton].
    intros x Hx ->%list_elem_of_singleton. done.
Qed.

(** ** Well-formedness of the registry is kept by every registry operation *)

Lemma wf_listeners_empty : wf_listeners ∅.
Proof. intros ev els. by rewrite lookup_empty. Qed.

Lemma wf_listeners_addListener ev lid c b :
  wf_listeners (m_listeners b) → wf_listeners (m_listeners (addListener ev lid c b)).
Proof.
  intros Hwf ev' els'. cbn.
  destruct (decide (ev = ev')) as [<-|Hne].
  - rewrite lookup_insert_eq. intros [= <-].
    split; [apply add_call_nonempty|].
    apply add_call_NoDup.
    destruct (m_listeners b !! ev) as [els|] eqn:E; cbn; [|constructor].
    by destruct (Hwf ev els).
  - rewrite lookup_insert_ne by done. apply Hwf.
Qed.

Lemma NoDup_ids_filter (P : ListenerCallbacks → Prop) `{∀ x, Decision (P x)} els :
  NoDup (listener_id <$> els) → NoDup (listener_id <$> filter P els).
Proof.
  intros Hnd. eapply sublist_NoDup; [exact Hnd|].
  apply fmap_sublist, sublist_filter.
Qed.

Lemma wf_listeners_removeListener ev lid b :
  wf_listeners (m_listeners b) → wf_listeners (m_listeners (removeListener ev lid b)).
Proof.
  intros Hwf. unfold removeListener.
  destruct (m_listeners b !! ev) as [els|] eqn:E; [|done].
  destruct (prune lid els) as [els'|] eqn:Hp; cbn; intros ev' els''.
  - destruct (decide (ev = ev')) as [<-|Hne].
    + rewrite lookup_insert_eq. intros [= <-].
      apply prune_Some in Hp as [Hne ->]. split; [done|].
      apply NoDup_ids_filter. by destruct (Hwf ev els).
    + rewrite lookup_insert_ne by done. apply Hwf.
  - destruct (decide (ev = ev')) as [<-|Hne].
    + by rewrite lookup_delete_eq.
    + rewrite lookup_delete_ne by done. apply Hwf.
Qed.

Lemma wf_listeners_removeListener_all lid b :
  wf_listeners (m_listeners b) → wf_listeners (m_listeners (removeListener_all lid b)).
Proof.
  intros Hwf ev els'. cbn. rewrite lookup_omap.
  destruct (m_listeners b !! ev) as [els|] eqn:E; cbn; [|done].
  intros [Hne ->]%prune_Some. split; [done|].
  apply NoDup_ids_filter. by destruct (Hwf ev els).
Qed.

Lemma set_listeners_same b : set_listeners (m_listeners b) b = b.
Proof. by destruct b. Qed.

Lemma filter_drop_owner lid pre g post :
  listener_id g = lid →
  NoDup (listener_id <$> pre ++ g :: post) →
  filter (λ el, listener_id el ≠ lid) (pre ++ g :: post) = pre ++ post.
Proof.
  intros Hg Hnd. rewrite fmap_app, fmap_cons in Hnd.
  apply NoDup_app in Hnd as (_ & Hpre & [Hpost _]%NoDup_cons).
  rewrite filter_app, filter_cons_False by (intros ?; done).
  rewrite !filter_all; [done| |].
  - apply Forall_forall. intros el Hel Heq. apply Hpost.
    rewrite Hg, <-Heq. by apply list_elem_of_fmap_2.
  - apply Forall_forall. intros el Hel Heq. apply (Hpre lid).
    + rewrite <-Heq. by apply list_elem_of_fmap_2.
    + rewrite <-Hg. apply elem_of_cons. by left.
Qed.

(** ** Removal *)

(** C5: in a well-formed registry, [removeListener(id, listener_id)] leaves
    every other key as it was; under the key [id] it takes out exactly the
    group of [listener_id], keeping the other groups and their order, and
    erases the key when no group is left; it changes nothing when there is no
    such group; the id counter and the postponed events are not touched. *)
Theorem removeListener_exact (ev : nat) (lid : Z) (b : EventBus) :
  wf_listeners (m_listeners b) →
  (∀ ev', ev' ≠ ev →
     m_listeners (removeListener ev lid b) !! ev' = m_listeners b !! ev')
  ∧ (∀ pre g post,
       m_listeners b !! ev = Some (pre ++ g :: post) → listener_id g = lid →
       m_listeners (removeListener ev lid b) !! ev =
         match pre ++ post with [] => None | _ :: _ => Some (pre ++ post) end)
  ∧ ((∀ els, m_listeners b !! ev = Some els →
        Forall (λ el, listener_id el ≠ lid) els) →
     removeListener ev lid b = b)
  ∧ m_lastListenerId (removeListener ev lid b) = m_lastListenerId b
  ∧ m_postpondedEvents (removeListener ev lid b) = m_postpondedEvents b.
Proof.
  intros Hwf. split_and!.
  - intros ev' Hne. unfold removeListener.
    destruct (m_listeners b !! ev) as [els|]; [|done].
    destruct (prune lid els); cbn.
    + by rewrite lookup_insert_ne.
    + by rewrite lookup_delete_ne.
  - intros pre g post Hlook Hg. unfold removeListener. rewrite Hlook.
    destruct (Hwf _ _ Hlook) as [_ Hnd].
    pose proof (filter_drop_owner lid pre g post Hg Hnd) as Hf.
    destruct (prune lid (pre ++ g :: post)) as [els'|] eqn:Hp; cbn.
    + apply prune_Some in Hp as [Hne ->]. rewrite lookup_insert_eq, Hf.
      rewrite Hf in Hne. by destruct (pre ++ post).
    + apply prune_None in Hp. rewrite lookup_delete_eq.
      rewrite Hf in Hp. by rewrite Hp.
  - intros Habsent. unfold removeListener.
    destruct (m_listeners b !! ev) as [els|] eqn:E; [|done].
    destruct (Hwf _ _ E) as [Hne _].
    rewrite (prune_absent lid els Hne (Habsent _ eq_refl)).
    rewrite insert_id by done. apply set_listeners_same.
  - unfold removeListener.
    destruct (m_listeners b !! ev) as [els|]; [|done]. by destruct (prune lid els).
  - unfold removeListener.
    destruct (m_listeners b !! ev) as [els|]; [|done]. by destruct (prune lid els).
Qed.

Lemma wf_two_subscribers : wf_listeners (m_listeners two_subscribers).
Proof.
  unfold two_subscribers, run_ops. cbn [foldl run_op].
  do 3 apply wf_listeners_addListener. apply wf_listeners_empty.
Qed.

Lemma removeListener_exact_witness :
  wf_listeners (m_listeners two_subscribers)
  ∧ m_listeners (removeListener 1 1 two_subscribers) !! 1%nat =
      Some [ {| listener_id := 2; calls := [ {| cb_event := 1; cb := Some cb2 |} ] |} ]
  ∧ m_listeners (removeListener 1 1 two_subscribers) !! 2%nat =
      m_listeners two_subscribers !! 2%nat.
Proof.
  pose proof (removeListener_exact 1 1 two_subscribers wf_two_subscribers)
    as (Hother & Hkey & _).
  split_and!.
  - exact wf_two_subscribers.
  - exact (Hkey [] {| listener_id := 1; calls := [ {| cb_event := 1; cb := Some cb1 |} ] |}
                [ {| listener_id := 2; calls := [ {| cb_event := 1; cb := Some cb2 |} ] |} ]
                eq_refl eq_refl).
  - apply Hother. lia.
Defined.

(** C6: [removeListener(listener_id)] is idempotent on every bus; after it no
    key holds a group of that listener and no key holds an empty vector; what
    stays under a key are the groups of the other listeners, in order. *)
Theorem removeListener_all_idempotent (lid : Z) (b : EventBus) :
  removeListener_all lid (removeListener_all lid b) = removeListener_all lid b
  ∧ (∀ ev els, m_listeners (removeListener_all lid b) !! ev = Some els →
       els ≠ [] ∧ Forall (λ el, listener_id el ≠ lid) els)
  ∧ (∀ ev, m_listeners (removeListener_all lid b) !! ev =
             els ← m_listeners b !! ev;
             match filter (λ el, listener_id el ≠ lid) els with
             | [] => None
             | el :: rest => Some (el :: rest)
             end).
Proof.
  split_and!.
  - unfold removeListener_all, set_listeners. cbn.
    f_equal. apply map_eq. intros ev. rewrite !lookup_omap.
    destruct (m_listeners b !! ev) as [els|]; cbn; [|done].
    destruct (prune lid els) as [els'|] eqn:Hp; cbn; [|done].
    by apply prune_prune in Hp.
  - intros ev els. cbn. rewrite lookup_omap.
    destruct (m_listeners b !! ev) as [els0|]; cbn; [|done].
    intros [Hne ->]%prune_Some. split; [done|].
    apply Forall_forall. by intros el [? _]%list_elem_of_filter.
  - intros ev. cbn. rewrite lookup_omap.
    destruct (m_listeners b !! ev) as [els0|]; cbn; [|done].
    unfold prune. by rewrite erase_if_owned_by.
Qed.

(** ** Sequencing and loops *)

Lemma for_each_app {T} (body : T → World → outcome) (v1 v2 : list T) (w : World) :
  for_each body (v1 ++ v2) w = (for_each body v1 ;; for_each body v2)%act w.
Proof.
  revert w. induction v1 as [|x v1 IH]; intros w; [done|].
  cbn. unfold seq. destruct (body x w) as [w'| |]; [|done..].
  apply IH.
Qed.

Lemma for_each_ext {T} (body1 body2 : T → World → outcome) (v : list T) (w : World) :
  (∀ x w', x ∈ v → body1 x w' = body2 x w') →
  for_each body1 v w = for_each body2 v w.
Proof.
  revert w. induction v as [|x v IH]; intros w Hext; [done|].
  cbn. unfold seq. rewrite Hext by (apply elem_of_cons; by left).
  destruct (body2 x w) as [w'| |]; [|done..].
  apply IH. intros y w'' Hy. apply Hext, elem_of_cons. by right.
Qed.

Lemma for_each_bind {S T} (f : S → list T) (body : T → World → outcome)
    (v : list S) (w : World) :
  for_each (λ x, for_each body (f x)) v w = for_each body (v ≫= f) w.
Proof.
  revert w. induction v as [|x v IH]; intros w; [done|].
  rewrite bind_cons, for_each_app. cbn. unfold seq.
  destruct (for_each body (f x) w) as [w'| |]; [|done..].
  apply IH.
Qed.

#[local] Instance grows_preorder : PreOrder grows.
Proof.
  split.
  - intros w. by split.
  - intros w1 w2 w3 [Hl1 Hi1 Hd1 Hb1 Ht1] [Hl2 Hi2 Hd2 Hb2 Ht2]. split.
    + congruence.
    + congruence.
    + by etrans.
    + lia.
    + by etrans.
Qed.

Lemma appends_skip : appends skip.
Proof. intros w. cbn. reflexivity. Qed.

Lemma appends_seq a1 a2 : appends a1 → appends a2 → appends (a1 ;; a2)%act.
Proof.
  intros H1 H2 w. unfold seq. specialize (H1 w).
  destruct (a1 w) as [w1| |]; [|done..].
  specialize (H2 w1). destruct (a2 w1); [by etrans..|done].
Qed.

Lemma appends_for_each {T} (body : T → World → outcome) (v : list T) :
  (∀ x, x ∈ v → appends (body x)) → appends (for_each body v).
Proof.
  induction v as [|x v IH]; intros Hb; [apply appends_skip|].
  cbn. apply appends_seq.
  - apply Hb, elem_of_cons. by left.
  - apply IH. intros y Hy. apply Hb, elem_of_cons. by right.
Qed.

(** ** The dispatch paths only append *)

Section DispatchFrame.
Context `{G : GrowthPolicy}.

Lemma appends_post e : appends (post e).
Proof.
  intros w. cbn. unfold emplace_back.
  destruct (decide _) as [Hlt|Hge]; split; cbn; try done.
  - by apply prefix_app_r.
  - by apply prefix_app_r.
  - lia.
Qed.

Lemma appends_record_call name v : appends (record_call name v).
Proof. intros w. split; cbn; try done. by apply prefix_app_r. Qed.

Lemma appends_call t v : appends (call t v).
Proof.
  apply appends_seq; [apply appends_record_call|].
  apply appends_for_each. intros e _. apply appends_post.
Qed.

Lemma appends_execute c e : appends (execute c e).
Proof.
  unfold execute. destruct (cb c) as [t|]; [|apply appends_skip].
  destruct (decide _); [apply appends_call|].
  intros w. cbn. reflexivity.
Qed.

Lemma appends_run_calls cs e : appends (run_calls cs e).
Proof. apply appends_for_each. intros c _. apply appends_execute. Qed.

Lemma appends_dispatch els e : appends (dispatch els e).
Proof. apply appends_for_each. intros el _. apply appends_run_calls. Qed.

Lemma appends_immediate_any ev e : appends (immediate_any ev e).
Proof.
  intros w. unfold immediate_any.
  destruct (m_listeners (bus w) !! ev) as [els|]; [apply appends_dispatch|].
  reflexivity.
Qed.

Lemma appends_emit_each pes : appends (emit_each pes).
Proof. apply appends_for_each. intros pe _. apply appends_immediate_any. Qed.

Lemma dispatch_flatten els e w :
  dispatch els e w = run_calls (els ≫= calls) e w.
Proof. unfold dispatch, run_calls. apply for_each_bind. Qed.

(** Posting returns and leaves the trace alone. *)
Lemma for_each_post_done es w :
  ∃ w', for_each post es w = Done w' ∧ trace w' = trace w.
Proof.
  revert w. induction es as [|e es IH]; intros w; [by exists w|].
  cbn. unfold seq. cbn.
  destruct (IH {| bus := set_postponded
                    (emplace_back {| pe_id := event_id e; pe_event := to_any e |}
                       (m_postpondedEvents (bus w))) (bus w);
                  trace := trace w |}) as (w' & -> & Ht).
  by exists w'.
Qed.

Lemma call_done t v w :
  ∃ w', call t v w = Done w' ∧ trace w' = trace w ++ [(fn_name t, v)].
Proof.
  unfold call, seq. cbn.
  destruct (for_each_post_done (fn_posts t v)
              {| bus := bus w; trace := trace w ++ [(fn_name t, v)] |})
    as (w' & -> & Ht).
  by exists w'.
Qed.

(** Callbacks of the event's own type all run, and the trace says so. *)
Lemma run_calls_done cs e w :
  Forall (λ c, cb_event c = any_type e) cs →
  ∃ w', run_calls cs e w = Done w' ∧ trace w' = trace w ++ calls_trace cs e.
Proof.
  intros Hty. revert w. induction Hty as [|c cs Hc _ IH]; intros w.
  - exists w. cbn. by rewrite app_nil_r.
  - unfold run_calls. cbn [for_each]. unfold seq, execute, calls_trace.
    cbn [omap list_omap].
    destruct (cb c) as [t|]; cbn.
    + rewrite decide_True by done.
      destruct (call_done t (any_value e) w) as (w1 & -> & Ht1).
      destruct (IH w1) as (w' & Hw' & Ht'). exists w'. split; [done|].
      rewrite Ht', Ht1. by rewrite <-app_assoc.
    + apply IH.
Qed.

Lemma typed_listeners_calls m ev els :
  typed_listeners m → m !! ev = Some els →
  Forall (λ c, cb_event c = ev) (els ≫= calls).
Proof.
  intros Hty Hlook. apply Forall_forall. intros c Hc.
  apply list_elem_of_bind in Hc as (el & Hc & Hel). eauto.
Qed.

(** Dispatch of a [std::any] that holds the type of the key returns. *)
Lemma immediate_any_done ev e w :
  typed_listeners (m_listeners (bus w)) →
  any_type e = ev →
  ∃ w', immediate_any ev e w = Done w'
        ∧ trace w' = trace w
            ++ calls_trace (default [] (m_listeners (bus w) !! ev) ≫= calls) e.
Proof.
  intros Hty He. unfold immediate_any.
  destruct (m_listeners (bus w) !! ev) as [els|] eqn:E; cbn.
  - rewrite dispatch_flatten. apply run_calls_done.
    eapply Forall_impl; [by eapply typed_listeners_calls|]. intros c ->. done.
  - exists w. by rewrite app_nil_r.
Qed.

Lemma immediate_done x w :
  typed_listeners (m_listeners (bus w)) →
  any_type (to_any x) = event_id x →
  ∃ w', immediate x w = Done w'
        ∧ trace w' = trace w
            ++ calls_trace (default [] (m_listeners (bus w) !! event_id x) ≫= calls)
                 (to_any x).
Proof. intros Hty Hx. by apply immediate_any_done. Qed.

End DispatchFrame.

(** ** Callbacks are stored under the key of their event type *)

Lemma typed_listeners_empty : typed_listeners ∅.
Proof. intros ev els el c. by rewrite lookup_empty. Qed.

Lemma elem_of_add_call lid c els el c' :
  el ∈ add_call lid c els → c' ∈ calls el →
  c' = c ∨ ∃ el', el' ∈ els ∧ c' ∈ calls el'.
Proof.
  induction els as [|el0 els IH]; cbn.
  - intros Hel%list_elem_of_singleton. subst el. cbn.
    intros Hc%list_elem_of_singleton. by left.
  - destruct (owned_by lid el0).
    + intros [->|Hel]%elem_of_cons; cbn.
      * intros [Hc|Hc%list_elem_of_singleton]%elem_of_app; [|by left].
        right. exists el0. split; [apply elem_of_cons; by left|done].
      * intros Hc. right. exists el. split; [apply elem_of_cons; by right|done].
    + intros [->|Hel]%elem_of_cons Hc.
      * right. exists el0. split; [apply elem_of_cons; by left|done].
      * destruct (IH Hel Hc) as [?|(el' & ? & ?)]; [by left|].
        right. exists el'. split; [apply elem_of_cons; by right|done].
Qed.

Lemma typed_listeners_addListener ev lid c b :
  cb_event c = ev →
  typed_listeners (m_listeners b) →
  typed_listeners (m_listeners (addListener ev lid c b)).
Proof.
  intros Hc Hty ev' els' el c'. cbn.
  destruct (decide (ev = ev')) as [<-|Hne].
  - rewrite lookup_insert_eq. intros [= <-] Hel Hc'.
    destruct (elem_of_add_call _ _ _ _ _ Hel Hc') as [->|(el' & Hel' & Hc'')]; [done|].
    destruct (m_listeners b !! ev) as [els|] eqn:E; cbn in Hel'.
    + by eapply Hty.
    + by apply elem_of_nil in Hel'.
  - rewrite lookup_insert_ne by done. apply Hty.
Qed.

Lemma typed_listeners_removeListener ev lid b :
  typed_listeners (m_listeners b) →
  typed_listeners (m_listeners (removeListener ev lid b)).
Proof.
  intros Hty. unfold removeListener.
  destruct (m_listeners b !! ev) as [els|] eqn:E; [|done].
  destruct (prune lid els) as [els'|] eqn:Hp; cbn; intros ev' els'' el c.
  - destruct (decide (ev = ev')) as [<-|Hne].
    + rewrite lookup_insert_eq. intros [= <-].
      apply prune_Some in Hp as [_ ->].
      intros [_ Hel]%list_elem_of_filter. by eapply Hty.
    + rewrite lookup_insert_ne by done. apply Hty.
  - destruct (decide (ev = ev')) as [<-|Hne].
    + by rewrite lookup_delete_eq.
    + rewrite lookup_delete_ne by done. apply Hty.
Qed.

Lemma typed_listeners_removeListener_all lid b :
  typed_listeners (m_listeners b) →
  typed_listeners (m_listeners (removeListener_all lid b)).
Proof.
  intros Hty ev els' el c. cbn. rewrite lookup_omap.
  destruct (m_listeners b !! ev) as [els|] eqn:E; cbn; [|done].
  intros [_ ->]%prune_Some [_ Hel]%list_elem_of_filter. by eapply Hty.
Qed.

Lemma typed_listeners_run_op b o :
  typed_listeners (m_listeners b) → typed_listeners (m_listeners (run_op b o)).
Proof.
  destruct o as [lid ev f|lid ev|lid]; cbn [run_op].
  - by apply typed_listeners_addListener.
  - apply typed_listeners_removeListener.
  - apply typed_listeners_removeListener_all.
Qed.

Lemma typed_listeners_run_ops b ops :
  typed_listeners (m_listeners b) → typed_listeners (m_listeners (run_ops b ops)).
Proof.
  revert b. induction ops as [|o ops IH]; intros b Hty; [done|].
  cbn. apply IH, typed_listeners_run_op, Hty.
Qed.

Lemma typed_two_subscribers : typed_listeners (m_listeners two_subscribers).
Proof. apply typed_listeners_run_ops, typed_listeners_empty. Qed.

(** ** [process] *)

Section Process.
Context `{G : GrowthPolicy}.

Lemma emit_each_done pes w :
  typed_listeners (m_listeners (bus w)) →
  typed_queue pes →
  ∃ w1, emit_each pes w = Done w1 ∧ grows w w1.
Proof.
  intros Hty Hq. revert w Hty. induction Hq as [|pe pes Hpe _ IH]; intros w Hty.
  - exists w. split; [done|reflexivity].
  - unfold emit_each. cbn [for_each]. unfold seq.
    destruct (immediate_any_done (pe_id pe) (pe_event pe) w Hty (eq_sym Hpe))
      as (w2 & Hw2 & _).
    pose proof (appends_immediate_any (pe_id pe) (pe_event pe) w) as Hg.
    rewrite Hw2 in Hg |- *.
    destruct (IH w2) as (w1 & Hw1 & Hg1).
    { by rewrite (grows_listeners _ _ Hg). }
    exists w1. split; [exact Hw1|by etrans].
Qed.

(** What the dispatch of typed postponed events adds to the trace. *)
Lemma emit_each_delivered pes w :
  typed_listeners (m_listeners (bus w)) →
  typed_queue pes →
  ∃ w1, emit_each pes w = Done w1
        ∧ trace w1 = trace w ++ delivered (m_listeners (bus w)) pes.
Proof.
  intros Hty Hq. revert w Hty. induction Hq as [|pe pes Hpe _ IH]; intros w Hty.
  - exists w. split; [done|]. unfold delivered. cbn. by rewrite app_nil_r.
  - unfold emit_each. cbn [for_each]. unfold seq.
    destruct (immediate_any_done (pe_id pe) (pe_event pe) w Hty (eq_sym Hpe))
      as (w2 & Hw2 & Ht2).
    pose proof (appends_immediate_any (pe_id pe) (pe_event pe) w) as Hg.
    rewrite Hw2 in Hg |- *.
    destruct (IH w2) as (w1 & Hw1 & Ht1).
    { by rewrite (grows_listeners _ _ Hg). }
    exists w1. split; [exact Hw1|].
    rewrite Ht1, Ht2, (grows_listeners _ _ Hg). unfold delivered.
    by rewrite bind_cons, app_assoc.
Qed.

(** The loop of [process] is the dispatch of each postponed event in turn,
    as long as the vector stays in the buffer the iterators point into. *)
Lemma process_loop_emit_each buf pes w :
  typed_listeners (m_listeners (bus w)) →
  typed_queue pes →
  buffer (m_postpondedEvents (bus w)) = buf →
  ∃ w1, emit_each pes w = Done w1
        ∧ process_loop buf pes w =
            if decide (buffer (m_postpondedEvents (bus w1)) = buf) then Done w1
            else Undefined.
Proof.
  intros Hty Hq. revert w Hty. induction Hq as [|pe pes Hpe Hpes IH]; intros w Hty Hbuf.
  - exists w. split; [done|]. cbn. by rewrite decide_True.
  - unfold emit_each. cbn [for_each process_loop]. unfold seq.
    destruct (immediate_any_done (pe_id pe) (pe_event pe) w Hty (eq_sym Hpe))
      as (w2 & Hw2 & _).
    pose proof (appends_immediate_any (pe_id pe) (pe_event pe) w) as Hg.
    rewrite Hw2 in Hg |- *.
    assert (typed_listeners (m_listeners (bus w2))) as Hty2
      by by rewrite (grows_listeners _ _ Hg).
    unfold check_iterators.
    destruct (decide (buffer (m_postpondedEvents (bus w2)) = buf)) as [Heq|Hne].
    + apply IH; done.
    + destruct (emit_each_done pes w2 Hty2 Hpes) as (w1 & Hw1 & Hg1).
      exists w1. split; [exact Hw1|].
      rewrite decide_False; [done|].
      pose proof (grows_buffer _ _ Hg). pose proof (grows_buffer _ _ Hg1). lia.
Qed.

(** Callbacks that do not post leave the bus as it is. *)
Lemma quiet_run_calls cs e w :
  (∀ c t v, c ∈ cs → cb c = Some t → fn_posts t v = []) →
  match run_calls cs e w with
  | Done w' | BadAnyCast w' => bus w' = bus w
  | Undefined => False
  end.
Proof.
  revert w. induction cs as [|c cs IH]; intros w Hq; [done|].
  unfold run_calls. cbn [for_each]. unfold seq, execute.
  assert (∀ c' t v, c' ∈ cs → cb c' = Some t → fn_posts t v = []) as Hq'.
  { intros c' t v Hc'. apply Hq, elem_of_cons. by right. }
  destruct (cb c) as [t|] eqn:E; cbn.
  - destruct (decide _); [|done].
    unfold call, seq. cbn. rewrite (Hq c t) by (done || apply elem_of_cons; by left).
    cbn. specialize (IH {| bus := bus w; trace := trace w ++ [(fn_name t, any_value e)] |} Hq').
    exact IH.
  - apply IH, Hq'.
Qed.

Lemma quiet_immediate_any ev e w :
  quiet_listeners (m_listeners (bus w)) →
  match immediate_any ev e w with
  | Done w' | BadAnyCast w' => bus w' = bus w
  | Undefined => False
  end.
Proof.
  intros Hq. unfold immediate_any.
  destruct (m_listeners (bus w) !! ev) as [els|] eqn:E; [|done].
  rewrite dispatch_flatten. apply quiet_run_calls.
  intros c t v (el & Hc & Hel)%list_elem_of_bind Hcb. by eapply Hq.
Qed.

Lemma quiet_emit_each pes w :
  quiet_listeners (m_listeners (bus w)) →
  match emit_each pes w with
  | Done w' | BadAnyCast w' => bus w' = bus w
  | Undefined => False
  end.
Proof.
  revert w. induction pes as [|pe pes IH]; intros w Hq; [done|].
  unfold emit_each. cbn [for_each]. unfold seq.
  pose proof (quiet_immediate_any (pe_id pe) (pe_event pe) w Hq) as H1.
  destruct (immediate_any _ _ w) as [w2| |]; [|done..].
  rewrite <-H1 in Hq |- *. exact (IH w2 Hq).
Qed.

(** [process] as a whole: the events one by one, then [clear()], unless a
    callback made the vector reallocate under the loop. *)
Lemma process_emit_each w :
  typed_listeners (m_listeners (bus w)) →
  typed_queue (data (m_postpondedEvents (bus w))) →
  ∃ w1,
    emit_each (data (m_postpondedEvents (bus w))) w = Done w1
    ∧ process w =
        (if decide (buffer (m_postpondedEvents (bus w1))
                    = buffer (m_postpondedEvents (bus w)))
         then clear_postponded w1 else Undefined).
Proof.
  intros Hty Hq.
  destruct (process_loop_emit_each (buffer (m_postpondedEvents (bus w)))
              (data (m_postpondedEvents (bus w))) w Hty Hq eq_refl)
    as (w1 & Hw1 & Hloop).
  exists w1. split; [exact Hw1|].
  unfold process, seq. cbn zeta. rewrite Hloop. by destruct (decide _).
Qed.

(** When no callback posts, [process] returns, and the one change to the bus
    is that no event is postponed. *)
Lemma process_quiet w :
  typed_listeners (m_listeners (bus w)) →
  typed_queue (data (m_postpondedEvents (bus w))) →
  quiet_listeners (m_listeners (bus w)) →
  process w =
    Done {| bus := set_postponded
                     (MkVector [] (capacity (m_postpondedEvents (bus w)))
                                  (buffer (m_postpondedEvents (bus w))))
                     (bus w);
            trace := trace w
                     ++ delivered (m_listeners (bus w))
                          (data (m_postpondedEvents (bus w))) |}.
Proof.
  intros Hty Hq Hquiet.
  destruct (process_emit_each w Hty Hq) as (w1 & Hw1 & Hp).
  pose proof (quiet_emit_each (data (m_postpondedEvents (bus w))) w Hquiet) as Hb.
  rewrite Hw1 in Hb.
  destruct (emit_each_delivered (data (m_postpondedEvents (bus w))) w Hty Hq)
    as (w1' & Hw1' & Ht).
  rewrite Hw1 in Hw1'. injection Hw1' as <-.
  rewrite Hp, Hb, decide_True by done.
  unfold clear_postponded, on_bus, clear. by rewrite Hb, Ht.
Qed.


End Process.


Lemma api_reachable_two_pings : api_reachable (G:=doubling) two_pings.
Proof.
  unfold api_reachable.
  eapply rtc_l.
  { eapply (api_Listener (G:=doubling)). reflexivity. }
  eapply rtc_l.
  { apply (api_handle (G:=doubling) _ (Listen 1 1%nat (Some answer))). cbn. lia. }
  eapply rtc_l.
  { eapply (api_post (G:=doubling) _ (ping 5)). reflexivity. }
  eapply rtc_l.
  { eapply (api_post (G:=doubling) _ (ping 6)). reflexivity. }
  apply rtc_refl.
Qed.

(** C3, on the code: subscriber 1 answers every [Ping] by posting a [Pong],
    and [Ping{5}] and [Ping{6}], posted on the new bus, fill the vector; the
    public interface alone brings this about.  [immediate] of the two events
    in turn returns after calling the answer on 5 and then on 6.  [process]
    does not: the first answer's post reallocates the vector under the
    running loop, and [process] has no defined result. *)
Theorem process_undefined_when_callback_reallocates :
  api_reachable (G:=doubling) two_pings
  ∧ data (m_postpondedEvents (bus two_pings)) = entry <$> [ping 5; ping 6]
  ∧ (∃ w1, for_each (immediate (G:=doubling)) [ping 5; ping 6] two_pings = Done w1
           ∧ trace w1 = [(3%nat, 5); (3%nat, 6)])
  ∧ process (G:=doubling) two_pings = Undefined.
Proof.
  split_and!.
  - exact api_reachable_two_pings.
  - reflexivity.
  - eexists. split; reflexivity.
  - reflexivity.
Qed.

(** ** Events nobody listens to *)

Section NoSubscribers.
Context `{G : GrowthPolicy}.

Lemma process_loop_unheard buf pes w :
  Forall (λ pe, m_listeners (bus w) !! pe_id pe = None) pes →
  buffer (m_postpondedEvents (bus w)) = buf →
  process_loop buf pes w = Done w.
Proof.
  intros Hall Hbuf. induction Hall as [|pe pes Hpe _ IH]; [done|].
  cbn [process_loop]. unfold seq, immediate_any. rewrite Hpe.
  unfold check_iterators. rewrite decide_True by done. exact IH.
Qed.

(** C7, as the code has it: with no entry under the key of the event's type,
    [immediate] returns in the world it was called in; [process] of postponed
    events that all have no entry under their key returns, calls nothing and
    leaves registry, id counter and trace alone, and its one effect is that
    the vector of postponed events is cleared. *)
Theorem no_subscribers_no_calls (w : World) :
  (∀ x, m_listeners (bus w) !! event_id x = None → immediate x w = Done w)
  ∧ (Forall (λ pe, m_listeners (bus w) !! pe_id pe = None)
       (data (m_postpondedEvents (bus w))) →
     process w =
       Done {| bus := set_postponded (clear (m_postpondedEvents (bus w))) (bus w);
               trace := trace w |}).
Proof.
  split.
  - intros x Hx. unfold immediate, immediate_any. by rewrite Hx.
  - intros Hall. unfold process, seq. cbn zeta.
    by rewrite (process_loop_unheard _ _ _ Hall eq_refl).
Qed.

(** Whenever [process] returns, it has cleared the vector. *)
Lemma process_leaves_nothing w w' :
  process w = Done w' → data (m_postpondedEvents (bus w')) = [].
Proof.
  unfold process, seq. cbn zeta.
  destruct (process_loop _ _ w) as [w1| |]; [|done..].
  by intros [= <-].
Qed.

End NoSubscribers.

Lemma unheard_ping_unheard :
  Forall (λ pe, m_listeners (bus unheard_ping) !! pe_id pe = None)
    (data (m_postpondedEvents (bus unheard_ping))).
Proof. repeat constructor. Qed.

Lemma no_subscribers_no_calls_witness :
  m_listeners (bus unheard_ping) !! event_id (ping 7) = None
  ∧ Forall (λ pe, m_listeners (bus unheard_ping) !! pe_id pe = None)
      (data (m_postpondedEvents (bus unheard_ping)))
  ∧ immediate (G:=doubling) (ping 7) unheard_ping = Done unheard_ping
  ∧ process (G:=doubling) unheard_ping =
      Done {| bus := set_postponded (MkVector [] 1 1) new_bus; trace := [] |}.
Proof.
  destruct (no_subscribers_no_calls (G:=doubling) unheard_ping) as [Hnow Hflush].
  split; [reflexivity|]. split; [exact unheard_ping_unheard|].
  split.
  - apply Hnow. reflexivity.
  - exact (Hflush unheard_ping_unheard).
Defined.

(** C7 as stated fails for [process]: the postponed events have no
    subscribers, and yet the call changes the bus, whose vector of postponed
    events it empties. *)
Lemma process_without_subscribers_clears :
  Forall (λ pe, m_listeners (bus unheard_ping) !! pe_id pe = None)
    (data (m_postpondedEvents (bus unheard_ping)))
  ∧ process (G:=doubling) unheard_ping ≠ Done unheard_ping.
Proof.
  split; [exact unheard_ping_unheard|].
  intros Hp. vm_compute in Hp. discriminate Hp.
Qed.

(** ** Events posted by a callback while [process] runs *)

Lemma reachable_ping_when_full : reachable (G:=doubling) ping_when_full.
Proof.
  unfold reachable.
  eapply rtc_l.
  { apply (step_addListener (G:=doubling) _ 1%nat 1 {| cb_event := 1; cb := Some answer |}). }
  eapply rtc_l.
  { apply (step_addListener (G:=doubling) _ 2%nat 2 {| cb_event := 2; cb := Some cb2 |}). }
  eapply rtc_l.
  { eapply (step_post (G:=doubling) _ (ping 5)). reflexivity. }
  apply rtc_refl.
Qed.

Lemma reachable_ping_with_room : reachable (G:=doubling) ping_with_room.
Proof.
  unfold reachable.
  eapply rtc_l.
  { eapply (step_post (G:=doubling) _ (pong 0)). reflexivity. }
  eapply rtc_l.
  { eapply (step_post (G:=doubling) _ (pong 0)). reflexivity. }
  eapply rtc_l.
  { eapply (step_process (G:=doubling)). reflexivity. }
  eapply rtc_l.
  { apply (step_addListener (G:=doubling) _ 1%nat 1 {| cb_event := 1; cb := Some answer |}). }
  eapply rtc_l.
  { apply (step_addListener (G:=doubling) _ 2%nat 2 {| cb_event := 2; cb := Some cb2 |}). }
  eapply rtc_l.
  { eapply (step_post (G:=doubling) _ (ping 5)). reflexivity. }
  apply rtc_refl.
Qed.

(** C1, on the code: [Ping{5}] is postponed, the callback of subscriber 1
    answers it by posting [Pong{5}], and subscriber 2 listens to [Pong].
    With room in the vector, [process] calls the answer and returns with no
    event postponed: the [Pong{5}] posted meanwhile went with [clear()], and
    the next [process] calls nobody.  With the vector full, the post
    reallocates it under the running loop, and [process] has no defined
    result.  Both worlds arise from a new bus by calls of its operations. *)
Theorem process_drops_events_posted_by_callbacks :
  reachable (G:=doubling) ping_with_room
  ∧ process (G:=doubling) ping_with_room = Done after_ping
  ∧ data (m_postpondedEvents (bus after_ping)) = []
  ∧ process (G:=doubling) after_ping = Done after_ping
  ∧ reachable (G:=doubling) ping_when_full
  ∧ process (G:=doubling) ping_when_full = Undefined.
Proof.
  split_and!.
  - exact reachable_ping_with_room.
  - reflexivity.
  - reflexivity.
  - reflexivity.
  - exact reachable_ping_when_full.
  - reflexivity.
Qed.

(** ** The registry stays well formed *)

Section Invariant.
Context `{G : GrowthPolicy}.

Lemma process_loop_grows buf pes w :
  match process_loop buf pes w with
  | Done w' | BadAnyCast w' => grows w w'
  | Undefined => True
  end.
Proof.
  revert w. induction pes as [|pe pes IH]; intros w; [cbn; reflexivity|].
  cbn [process_loop]. unfold seq.
  pose proof (appends_immediate_any (pe_id pe) (pe_event pe) w) as Hg.
  destruct (immediate_any _ _ w) as [w2|w2|]; [|done..].
  unfold check_iterators. destruct (decide _); [|done].
  specialize (IH w2). destruct (process_loop buf pes w2); [by etrans..|done].
Qed.

Lemma process_listeners w w' :
  process w = Done w' ∨ process w = BadAnyCast w' →
  m_listeners (bus w') = m_listeners (bus w).
Proof.
  unfold process, seq. cbn zeta.
  pose proof (process_loop_grows (buffer (m_postpondedEvents (bus w)))
                (data (m_postpondedEvents (bus w))) w) as Hg.
  destruct (process_loop _ _ w) as [w1|w1|]; cbn.
  - intros [[= <-]|[=]]. cbn. apply (grows_listeners _ _ Hg).
  - intros [[=]|[= <-]]. apply (grows_listeners _ _ Hg).
  - by intros [|].
Qed.

Lemma bus_step_wf_listeners w w' :
  wf_listeners (m_listeners (bus w)) → bus_step w w' →
  wf_listeners (m_listeners (bus w')).
Proof.
  intros Hwf Hstep.
  destruct Hstep as [r Hr|ev lid c|ev lid|lid|e w' He|e w' He|e w' He|w' Hp|w' Hp].
  - unfold getNewListenerId in Hr. destruct (decide _); [|done].
    by injection Hr as <-.
  - by apply wf_listeners_addListener.
  - by apply wf_listeners_removeListener.
  - by apply wf_listeners_removeListener_all.
  - pose proof (appends_post e w) as Hg. rewrite He in Hg.
    by rewrite (grows_listeners _ _ Hg).
  - pose proof (appends_immediate_any (event_id e) (to_any e) w) as Hg.
    unfold immediate in He. rewrite He in Hg.
    by rewrite (grows_listeners _ _ Hg).
  - pose proof (appends_immediate_any (event_id e) (to_any e) w) as Hg.
    unfold immediate in He. rewrite He in Hg.
    by rewrite (grows_listeners _ _ Hg).
  - rewrite (process_listeners w w'); auto.
  - rewrite (process_listeners w w'); auto.
Qed.

(** C9: the registry of a new bus is well formed, every operation of the bus
    keeps it so, returning or throwing, and so in every reachable world each
    key of the registry holds a non-empty vector of groups in which no
    listener id occurs twice. *)
Theorem wf_listeners_invariant (w : World) :
  wf_listeners (m_listeners new_bus)
  ∧ (∀ w', wf_listeners (m_listeners (bus w)) → bus_step w w' →
           wf_listeners (m_listeners (bus w')))
  ∧ (reachable w → wf_listeners (m_listeners (bus w))).
Proof.
  split_and!.
  - apply wf_listeners_empty.
  - intros w'. apply bus_step_wf_listeners.
  - unfold reachable. revert w.
    apply (rtc_ind_r (λ w, wf_listeners (m_listeners (bus w)))).
    + apply wf_listeners_empty.
    + intros w1 w2 _ Hstep Hwf. by eapply bus_step_wf_listeners.
Qed.

End Invariant.

Lemma wf_listeners_invariant_witness :
  reachable (G:=doubling) ping_with_room
  ∧ wf_listeners (m_listeners (bus ping_with_room)).
Proof.
  split; [exact reachable_ping_with_room|].
  apply (wf_listeners_invariant (G:=doubling) ping_with_room).
  exact reachable_ping_with_room.
Defined.

(** ** Registration order *)

Lemma elem_of_first_occurrences x l : x ∈ first_occurrences l ↔ x ∈ l.
Proof.
  induction l as [|y l IH]; [done|].
  cbn. rewrite !elem_of_cons, list_elem_of_filter, IH.
  destruct (decide (x = y)) as [->|Hne]; tauto.
Qed.

Lemma NoDup_first_occurrences l : NoDup (first_occurrences l).
Proof.
  induction l as [|y l IH]; cbn; [constructor|].
  apply NoDup_cons. split.
  - rewrite list_elem_of_filter. by intros [Hne _].
  - by apply NoDup_filter.
Qed.

Lemma first_occurrences_snoc l x :
  first_occurrences (l ++ [x]) =
    if decide (x ∈ l) then first_occurrences l else first_occurrences l ++ [x].
Proof.
  induction l as [|y l IH]; [done|].
  cbn. rewrite IH. destruct (decide (x = y)) as [->|Hne].
  - rewrite (decide_True (P := y ∈ y :: l)) by (apply elem_of_cons; by left).
    destruct (decide (y ∈ l)); [done|].
    rewrite filter_app, filter_cons_False by (intros ?; done).
    by rewrite filter_nil, app_nil_r.
  - destruct (decide (x ∈ l)) as [Hin|Hnin].
    + rewrite decide_True by (apply elem_of_cons; by right). done.
    + rewrite decide_False by (rewrite elem_of_cons; tauto).
      by rewrite filter_app, filter_cons_True.
Qed.

Lemma first_occurrences_filter (P : Z → Prop) `{∀ x, Decision (P x)} l :
  first_occurrences (filter P l) = filter P (first_occurrences l).
Proof.
  induction l as [|y l IH]; [done|].
  cbn [first_occurrences]. destruct (decide (P y)) as [Hy|Hy].
  - rewrite !filter_cons_True by done. cbn [first_occurrences].
    rewrite IH. f_equal. rewrite !list_filter_filter.
    apply list_filter_iff. intros x. tauto.
  - rewrite !filter_cons_False by done. rewrite IH.
    rewrite list_filter_filter. apply list_filter_iff.
    intros x. split; [|tauto]. intros Hx. split; [done|]. by intros ->.
Qed.

Lemma fst_filter_ne {B} (lid : Z) (L : list (Z * B)) :
  (filter (λ r, r.1 ≠ lid) L).*1 = filter (λ i, i ≠ lid) (L.*1).
Proof.
  induction L as [|r L IH]; [done|].
  cbn [fmap list_fmap]. destruct (decide (r.1 ≠ lid)).
  - rewrite !filter_cons_True by done. cbn. by rewrite IH.
  - by rewrite !filter_cons_False.
Qed.

Lemma callbacks_of_snoc lid L lid' c :
  callbacks_of lid (L ++ [(lid', c)]) =
    callbacks_of lid L ++ (if decide (lid' = lid) then [c] else []).
Proof.
  unfold callbacks_of. rewrite filter_app, fmap_app. f_equal.
  destruct (decide (lid' = lid)).
  - by rewrite filter_cons_True.
  - by rewrite filter_cons_False.
Qed.

Lemma callbacks_of_absent lid L : lid ∉ L.*1 → callbacks_of lid L = [].
Proof.
  intros Hnin. unfold callbacks_of.
  induction L as [|r L IH]; [done|].
  cbn in Hnin. apply not_elem_of_cons in Hnin as [Hne Hnin].
  rewrite filter_cons_False by (intros ?; done). by apply IH.
Qed.

Lemma callbacks_of_filter_other lid lid' L :
  lid' ≠ lid →
  callbacks_of lid' (filter (λ r, r.1 ≠ lid) L) = callbacks_of lid' L.
Proof.
  intros Hne. unfold callbacks_of. f_equal.
  rewrite list_filter_filter. apply list_filter_iff.
  intros r. split; [tauto|]. intros Hr. split; [done|congruence].
Qed.

(** [add_call] on groups listed by a duplicate-free list of ids. *)
Lemma add_call_fmap lid c (F : Z → list Callback) (S : list Z) :
  NoDup S →
  add_call lid c ((λ i, {| listener_id := i; calls := F i |}) <$> S) =
    ((λ i, {| listener_id := i;
              calls := F i ++ (if decide (lid = i) then [c] else []) |}) <$> S)
    ++ (if decide (lid ∈ S) then [] else [ {| listener_id := lid; calls := [c] |} ]).
Proof.
  induction 1 as [|s S Hs Hnd IH]; [done|].
  cbn. unfold owned_by at 1. cbn.
  destruct (Z.eqb_spec s lid) as [->|Hne].
  - rewrite decide_True by done.
    rewrite (decide_True (P := lid ∈ lid :: S)) by (apply elem_of_cons; by left).
    rewrite app_nil_r. f_equal. apply list_fmap_ext. intros j i Hi.
    rewrite decide_False; [by rewrite app_nil_r|].
    intros ->. apply Hs. by eapply list_elem_of_lookup_2.
  - rewrite decide_False by done. rewrite app_nil_r, IH. cbn. f_equal. f_equal.
    destruct (decide (lid ∈ S)) as [Hin|Hnin].
    + rewrite decide_True by (apply elem_of_cons; by right). done.
    + rewrite decide_False; [done|].
      intros [?|?]%elem_of_cons; [congruence|done].
Qed.

Lemma groups_of_snoc L lid c :
  groups_of (L ++ [(lid, c)]) = add_call lid c (groups_of L).
Proof.
  unfold groups_of.
  rewrite (add_call_fmap lid c (λ i, callbacks_of i L)) by apply NoDup_first_occurrences.
  rewrite fmap_app. cbn [fmap list_fmap fst]. rewrite first_occurrences_snoc.
  destruct (decide (lid ∈ L.*1)) as [Hin|Hnin].
  - rewrite decide_True by by apply elem_of_first_occurrences.
    rewrite app_nil_r. apply list_fmap_ext. intros j i _.
    by rewrite callbacks_of_snoc.
  - rewrite decide_False by by rewrite elem_of_first_occurrences.
    rewrite fmap_app. cbn [fmap list_fmap]. f_equal.
    + apply list_fmap_ext. intros j i _. by rewrite callbacks_of_snoc.
    + rewrite callbacks_of_snoc, decide_True by done.
      by rewrite callbacks_of_absent.
Qed.

Lemma groups_of_filter L lid :
  groups_of (filter (λ r, r.1 ≠ lid) L) =
    filter (λ el, listener_id el ≠ lid) (groups_of L).
Proof.
  unfold groups_of.
  rewrite fst_filter_ne, first_occurrences_filter.
  induction (first_occurrences (L.*1)) as [|i S IH]; [done|].
  cbn [fmap list_fmap]. destruct (decide (i ≠ lid)) as [Hi|Hi].
  - rewrite (filter_cons_True (λ i, i ≠ lid)) by done.
    rewrite (filter_cons_True (λ el, listener_id el ≠ lid)) by done.
    cbn. rewrite IH. f_equal. f_equal. by apply callbacks_of_filter_other.
  - rewrite (filter_cons_False (λ i, i ≠ lid)) by done.
    rewrite (filter_cons_False (λ el, listener_id el ≠ lid)) by done.
    exact IH.
Qed.

Lemma removeListener_lookup ev lid b :
  m_listeners (removeListener ev lid b) !! ev = m_listeners b !! ev ≫= prune lid.
Proof.
  unfold removeListener.
  destruct (m_listeners b !! ev) as [els|] eqn:E; cbn; [|done].
  destruct (prune lid els); cbn.
  - by rewrite lookup_insert_eq.
  - by rewrite lookup_delete_eq.
Qed.

Lemma removeListener_lookup_ne ev ev' lid b :
  ev' ≠ ev → m_listeners (removeListener ev lid b) !! ev' = m_listeners b !! ev'.
Proof.
  intros Hne. unfold removeListener.
  destruct (m_listeners b !! ev) as [els|]; [|done].
  destruct (prune lid els); cbn.
  - by rewrite lookup_insert_ne.
  - by rewrite lookup_delete_ne.
Qed.

Lemma prune_entry_of lid els :
  entry_of els ≫= prune lid = entry_of (filter (λ el, listener_id el ≠ lid) els).
Proof.
  destruct els as [|el els]; [done|].
  cbn [entry_of mbind option_bind]. unfold prune. rewrite erase_if_owned_by.
  by destruct (filter _ (el :: els)).
Qed.

Lemma default_entry_of els : default [] (entry_of els) = els.
Proof. by destruct els. Qed.

(** One step of a history, seen at one key. *)
Lemma run_op_entry ev b L o :
  m_listeners b !! ev = entry_of (groups_of L) →
  m_listeners (run_op b o) !! ev = entry_of (groups_of (live_step ev L o)).
Proof.
  intros Hb. destruct o as [lid ev' f|lid ev'|lid]; cbn [run_op live_step].
  - destruct (decide (ev' = ev)) as [->|Hne]; cbn.
    + rewrite lookup_insert_eq, Hb, default_entry_of, groups_of_snoc.
      pose proof (add_call_nonempty lid {| cb_event := ev; cb := f |} (groups_of L)).
      by destruct (add_call _ _ _).
    + by rewrite lookup_insert_ne.
  - destruct (decide (ev' = ev)) as [->|Hne].
    + by rewrite removeListener_lookup, Hb, prune_entry_of, groups_of_filter.
    + by rewrite removeListener_lookup_ne.
  - cbn. by rewrite lookup_omap, Hb, prune_entry_of, groups_of_filter.
Qed.

Lemma run_ops_entry ev b L ops :
  m_listeners b !! ev = entry_of (groups_of L) →
  m_listeners (run_ops b ops) !! ev =
    entry_of (groups_of (foldl (live_step ev) L ops)).
Proof.
  revert b L. induction ops as [|o ops IH]; intros b L Hb; [done|].
  cbn. by apply IH, run_op_entry.
Qed.

Lemma groups_of_calls L : groups_of L ≫= calls = dispatch_order L.
Proof. unfold groups_of, dispatch_order. by rewrite list_fmap_bind. Qed.

(** Grouping by subscriber only reorders the registrations. *)
Lemma bind_split_owner {B} (lid : Z) (f : Z → list B) (S : list Z) :
  S ≫= f ≡ₚ (filter (λ i, i = lid) S ≫= f) ++ (filter (λ i, i ≠ lid) S ≫= f).
Proof.
  induction S as [|x S IH]; [done|].
  rewrite bind_cons. destruct (decide (x = lid)) as [Hx|Hx].
  - rewrite (filter_cons_True (λ i, i = lid)) by done.
    rewrite (filter_cons_False (λ i, i ≠ lid)) by (intros ?; done).
    rewrite bind_cons, <-app_assoc. by f_equiv.
  - rewrite (filter_cons_False (λ i, i = lid)) by done.
    rewrite (filter_cons_True (λ i, i ≠ lid)) by done.
    rewrite bind_cons, IH. apply Permutation_app_swap_app.
Qed.

Lemma filter_owner_NoDup (lid : Z) (S : list Z) :
  NoDup S → filter (λ i, i = lid) S = if decide (lid ∈ S) then [lid] else [].
Proof.
  induction 1 as [|x S Hx Hnd IH]; [done|].
  destruct (decide (x = lid)) as [->|Hne].
  - rewrite filter_cons_True by done.
    rewrite decide_True by (apply elem_of_cons; by left).
    rewrite IH, decide_False by done. done.
  - rewrite filter_cons_False by done. rewrite IH.
    destruct (decide (lid ∈ S)) as [Hin|Hnin].
    + rewrite decide_True by (apply elem_of_cons; by right). done.
    + rewrite decide_False; [done|].
      intros [?|?]%elem_of_cons; [congruence|done].
Qed.

Lemma bind_ext_in {A B} (f g : A → list B) (l : list A) :
  (∀ x, x ∈ l → f x = g x) → l ≫= f = l ≫= g.
Proof.
  induction l as [|x l IH]; intros Hfg; [done|].
  rewrite !bind_cons, Hfg, IH; [done| |apply elem_of_cons; by left].
  intros y Hy. apply Hfg, elem_of_cons. by right.
Qed.

Lemma dispatch_order_Permutation L : dispatch_order L ≡ₚ L.*2.
Proof.
  unfold dispatch_order. induction L as [|[lid c] L IH]; [done|].
  cbn [fmap list_fmap fst snd first_occurrences]. rewrite bind_cons.
  assert (callbacks_of lid ((lid, c) :: L) = c :: callbacks_of lid L) as ->.
  { unfold callbacks_of. by rewrite filter_cons_True. }
  cbn [app]. f_equiv.
  rewrite (bind_ext_in _ (λ i, callbacks_of i L)).
  2: { intros i [Hi _]%list_elem_of_filter. unfold callbacks_of.
       by rewrite filter_cons_False by (intros ?; done). }
  rewrite <-IH, (bind_split_owner lid _ (first_occurrences (L.*1))).
  f_equiv.
  rewrite filter_owner_NoDup by apply NoDup_first_occurrences.
  destruct (decide (lid ∈ first_occurrences (L.*1))) as [Hin|Hnin].
  - cbn. by rewrite app_nil_r.
  - cbn. rewrite callbacks_of_absent; [done|].
    by rewrite <-elem_of_first_occurrences.
Qed.

Section DispatchOrder.
Context `{G : GrowthPolicy}.

(** C2, as the code has it: on a bus whose registry a history of [listen],
    [unlisten] and [unlistenAll] calls has built, [immediate] of an event
    whose [std::any] holds the event's own type executes the callbacks
    registered for that type and still in force, each once: the groups in the
    order of the first registration in force of their subscriber, so that a
    subscriber who was removed and registers again comes last, and the
    callbacks of a group in registration order.  It returns, and the trace
    grows by exactly these calls. *)
Theorem immediate_visits_in_registration_order
    (ops : list handle_op) (x : event) (w : World) :
  m_listeners (bus w) = m_listeners (run_ops new_bus ops) →
  any_type (to_any x) = event_id x →
  m_listeners (bus w) !! event_id x = entry_of (groups_of (live (event_id x) ops))
  ∧ immediate x w = run_calls (dispatch_order (live (event_id x) ops)) (to_any x) w
  ∧ (∃ w', immediate x w = Done w'
           ∧ trace w' = trace w
               ++ calls_trace (dispatch_order (live (event_id x) ops)) (to_any x))
  ∧ dispatch_order (live (event_id x) ops) ≡ₚ (live (event_id x) ops).*2.
Proof.
  intros Hw Hx.
  assert (m_listeners (bus w) !! event_id x
          = entry_of (groups_of (live (event_id x) ops))) as Hentry.
  { rewrite Hw. by apply run_ops_entry. }
  split_and!.
  - exact Hentry.
  - unfold immediate, immediate_any. rewrite Hentry.
    rewrite <-groups_of_calls.
    destruct (groups_of (live (event_id x) ops)) as [|el els]; [done|].
    apply dispatch_flatten.
  - destruct (immediate_done x w) as (w' & Hw' & Ht); [|done|].
    { rewrite Hw. apply typed_listeners_run_ops, typed_listeners_empty. }
    exists w'. split; [exact Hw'|].
    by rewrite Ht, Hentry, default_entry_of, groups_of_calls.
  - apply dispatch_order_Permutation.
Qed.

End DispatchOrder.

Lemma immediate_visits_in_registration_order_witness :
  let w := {| bus := run_ops (bus_of_handles 3) comes_back; trace := [] |} in
  m_listeners (bus w) = m_listeners (run_ops new_bus comes_back)
  ∧ any_type (to_any (ping 5)) = event_id (ping 5)
  ∧ dispatch_order (live 1%nat comes_back) =
      [ {| cb_event := 1; cb := Some cb2 |};
        {| cb_event := 1; cb := Some cb2 |}; {| cb_event := 1; cb := Some cb1 |};
        {| cb_event := 1; cb := Some answer |} ]
  ∧ ∃ w', immediate (G:=doubling) (ping 5) w = Done w'
          ∧ trace w' = [(2%nat, 5); (2%nat, 5); (1%nat, 5); (3%nat, 5)].
Proof.
  intros w. split; [reflexivity|]. split; [reflexivity|]. split; [reflexivity|].
  destruct (immediate_visits_in_registration_order (G:=doubling)
              comes_back (ping 5) w eq_refl eq_refl)
    as (_ & _ & (w' & Hw' & Ht) & _).
  exists w'. split; [exact Hw'|]. exact Ht.
Defined.

Lemma api_reachable_rereg :
  api_reachable (G:=doubling) {| bus := run_ops (bus_of_handles 2) rereg; trace := [] |}.
Proof.
  unfold api_reachable.
  eapply rtc_l.
  { eapply (api_Listener (G:=doubling)). reflexivity. }
  eapply rtc_l.
  { eapply (api_Listener (G:=doubling)). reflexivity. }
  eapply rtc_l.
  { apply (api_handle (G:=doubling) _ (Listen 1 1%nat (Some cb1))). cbn. lia. }
  eapply rtc_l.
  { apply (api_handle (G:=doubling) _ (Listen 2 1%nat (Some cb2))). cbn. lia. }
  eapply rtc_l.
  { apply (api_handle (G:=doubling) _ (Unlisten 1 1%nat)). cbn. lia. }
  eapply rtc_l.
  { apply (api_handle (G:=doubling) _ (Listen 1 1%nat (Some cb1))). by vm_compute. }
  apply rtc_refl.
Qed.

(** C2 as stated fails: two handles are constructed, subscriber 1 registers
    for [Ping] before subscriber 2 does, then revokes that registration and
    registers again.  Its group now stands behind the group of subscriber 2,
    and [immediate] calls the callback of subscriber 2 first, though
    subscriber 1 was the first to register for [Ping]. *)
Lemma returning_subscriber_is_visited_last :
  api_reachable (G:=doubling) {| bus := run_ops (bus_of_handles 2) rereg; trace := [] |}
  ∧ first_registered 1%nat rereg = [1; 2]
  ∧ listener_id <$> default [] (m_listeners (run_ops (bus_of_handles 2) rereg) !! 1%nat)
      = [2; 1]
  ∧ listener_id <$> default [] (m_listeners (run_ops (bus_of_handles 2) rereg) !! 1%nat)
      ≠ first_registered 1%nat rereg
  ∧ immediate (G:=doubling) (ping 5)
      {| bus := run_ops (bus_of_handles 2) rereg; trace := [] |}
      = Done {| bus := run_ops (bus_of_handles 2) rereg;
                trace := [(2%nat, 5); (1%nat, 5)] |}.
Proof.
  split_and!; [exact api_reachable_rereg|reflexivity|reflexivity| |reflexivity].
  intros Heq. vm_compute in Heq. discriminate Heq.
Qed.

(** ** Repeated registration *)

Lemma calls_split lid els :
  els ≫= calls = calls_before lid els ++ calls_for lid els ++ calls_after lid els.
Proof.
  induction els as [|el els IH]; [done|].
  rewrite bind_cons. cbn. destruct (owned_by lid el); [done|].
  by rewrite IH, app_assoc.
Qed.

Lemma add_call_calls lid c els :
  calls_before lid (add_call lid c els) = calls_before lid els
  ∧ calls_for lid (add_call lid c els) = calls_for lid els ++ [c]
  ∧ calls_after lid (add_call lid c els) = calls_after lid els.
Proof.
  induction els as [|el els (IH1 & IH2 & IH3)]; cbn.
  - unfold owned_by. cbn. by rewrite Z.eqb_refl.
  - destruct (owned_by lid el) eqn:E; cbn.
    + unfold owned_by in E |- *. cbn. by rewrite E.
    + rewrite E. by rewrite IH1, IH2, IH3.
Qed.

Lemma add_calls_calls lid cs els :
  calls_before lid (foldl (λ v c, add_call lid c v) els cs) = calls_before lid els
  ∧ calls_for lid (foldl (λ v c, add_call lid c v) els cs) = calls_for lid els ++ cs
  ∧ calls_after lid (foldl (λ v c, add_call lid c v) els cs) = calls_after lid els.
Proof.
  revert els. induction cs as [|c cs IH]; intros els; cbn.
  - by rewrite app_nil_r.
  - destruct (IH (add_call lid c els)) as (-> & -> & ->).
    destruct (add_call_calls lid c els) as (-> & -> & ->).
    by rewrite <-app_assoc.
Qed.

Lemma run_ops_listen lid ev (fs : list (option target)) b :
  default [] (m_listeners (run_ops b (Listen lid ev <$> fs)) !! ev) =
    foldl (λ v c, add_call lid c v) (default [] (m_listeners b !! ev))
      (MkCallback ev <$> fs).
Proof.
  revert b. induction fs as [|f fs IH]; intros b; [done|].
  cbn [fmap list_fmap run_ops foldl]. unfold run_ops in IH. rewrite IH.
  cbn. by rewrite lookup_insert_eq.
Qed.

Lemma calls_trace_app cs1 cs2 e :
  calls_trace (cs1 ++ cs2) e = calls_trace cs1 e ++ calls_trace cs2 e.
Proof. unfold calls_trace. apply omap_app. Qed.

Lemma calls_trace_targets ev (ts : list target) e :
  calls_trace (MkCallback ev <$> (Some <$> ts)) e =
    (λ t, (fn_name t, any_value e)) <$> ts.
Proof. induction ts as [|t ts IH]; [done|]. cbn. by rewrite <-IH. Qed.

Section Registration.
Context `{G : GrowthPolicy}.

(** X21: [listen] called [n] times by one subscriber for one event type
    adds [n] callbacks, in this order, at the end of the subscriber's group
    for that type, whatever the registry held and whether or not callbacks
    repeat; [immediate] of an event of that type whose [std::any] holds that
    type then returns after calling, between the callbacks that were there
    before, all [n] of them in the order of registration. *)
Theorem repeated_registrations_all_called
    (b : EventBus) (lid : Z) (ev : nat) (ts : list target) (x : event) (w : World) :
  typed_listeners (m_listeners b) →
  bus w = run_ops b (Listen lid ev <$> (Some <$> ts)) →
  event_id x = ev →
  any_type (to_any x) = ev →
  calls_for lid (default [] (m_listeners (bus w) !! ev)) =
    calls_for lid (default [] (m_listeners b !! ev)) ++ (MkCallback ev <$> (Some <$> ts))
  ∧ ∃ w', immediate x w = Done w'
          ∧ trace w' =
              trace w
              ++ calls_trace (calls_before lid (default [] (m_listeners b !! ev))) (to_any x)
              ++ calls_trace (calls_for lid (default [] (m_listeners b !! ev))) (to_any x)
              ++ ((λ t, (fn_name t, any_value (to_any x))) <$> ts)
              ++ calls_trace (calls_after lid (default [] (m_listeners b !! ev))) (to_any x).
Proof.
  intros Hty Hw Hid Hx.
  pose proof (run_ops_listen lid ev (Some <$> ts) b) as Hreg. rewrite <-Hw in Hreg.
  destruct (add_calls_calls lid (MkCallback ev <$> (Some <$> ts))
              (default [] (m_listeners b !! ev))) as (Hbefore & Hfor & Hafter).
  rewrite <-Hreg in Hbefore, Hfor, Hafter.
  split; [exact Hfor|].
  destruct (immediate_done x w) as (w' & Hw' & Ht).
  { rewrite Hw. by apply typed_listeners_run_ops. }
  { congruence. }
  exists w'. split; [exact Hw'|].
  rewrite Ht, Hid, (calls_split lid), Hbefore, Hfor, Hafter.
  by rewrite !calls_trace_app, calls_trace_targets, <-!app_assoc.
Qed.

End Registration.

Lemma repeated_registrations_all_called_witness :
  let w := {| bus := run_ops two_subscribers
                       (Listen 1 1%nat <$> (Some <$> [answer; cb2; answer]));
              trace := [] |} in
  typed_listeners (m_listeners two_subscribers)
  ∧ calls_for 1 (default [] (m_listeners (bus w) !! 1%nat)) =
      [ {| cb_event := 1; cb := Some cb1 |}; {| cb_event := 1; cb := Some answer |};
        {| cb_event := 1; cb := Some cb2 |}; {| cb_event := 1; cb := Some answer |} ]
  ∧ ∃ w', immediate (G:=doubling) (ping 5) w = Done w'
          ∧ trace w' = [(1%nat, 5); (3%nat, 5); (2%nat, 5); (3%nat, 5); (2%nat, 5)].
Proof.
  intros w. split; [exact typed_two_subscribers|].
  destruct (repeated_registrations_all_called (G:=doubling)
              two_subscribers 1 1%nat [answer; cb2; answer] (ping 5) w
              typed_two_subscribers eq_refl eq_refl eq_refl)
    as (Hfor & w' & Hw' & Ht).
  split; [exact Hfor|].
  exists w'. split; [exact Hw'|]. exact Ht.
Defined.

Lemma api_reachable_any_listeners :
  api_reachable (G:=doubling) {| bus := any_listeners; trace := [] |}.
Proof.
  unfold api_reachable.
  eapply rtc_l.
  { eapply (api_Listener (G:=doubling)). reflexivity. }
  eapply rtc_l.
  { apply (api_handle (G:=doubling) _ (Listen 1 any_id (Some cb1))). cbn. lia. }
  eapply rtc_l.
  { apply (api_handle (G:=doubling) _ (Listen 1 any_id (Some cb2))). cbn. lia. }
  apply rtc_refl.
Qed.

(** C4, on the code: subscriber 1 has called [listen<std::any>] with two
    callbacks, which the public interface alone brings about.  Both are
    retained, in order, in its group under the key of [std::any].  But
    [immediate] of a [std::any] that holds [Ping{5}] calls neither: the
    template hands the [std::any] on as it is, [execute] casts it to
    [std::any], and [immediate] ends by [std::bad_any_cast] at the first
    callback, in the world it started in. *)
Theorem callbacks_for_any_are_not_called :
  api_reachable (G:=doubling) {| bus := any_listeners; trace := [] |}
  ∧ calls_for 1 (default [] (m_listeners any_listeners !! any_id)) =
      [ {| cb_event := any_id; cb := Some cb1 |};
        {| cb_event := any_id; cb := Some cb2 |} ]
  ∧ event_id (Erased (Ping 5)) = any_id
  ∧ immediate (G:=doubling) (Erased (Ping 5)) {| bus := any_listeners; trace := [] |}
      = BadAnyCast {| bus := any_listeners; trace := [] |}.
Proof.
  split_and!.
  - exact api_reachable_any_listeners.
  - reflexivity.
  - reflexivity.
  - reflexivity.
Qed.

(** ** Handles *)

(** The constructor gives no handle for a null [bus], and every handle it
    gives holds the bus it was given. *)
Lemma Listener_new_holds_bus p h l h' :
  Listener_new p h = Some (l, h') → is_Some p ∧ m_bus l = p.
Proof.
  unfold Listener_new. destruct p as [a|]; cbn; [|done].
  destruct (h !! a) as [b|]; cbn; [|done].
  destruct (getNewListenerId b) as [r|]; cbn; [|done].
  intros [= <- _]. by split.
Qed.

(** C8, on the code: a handle that holds no bus cannot be had.  The one
    constructor, [Listener(bus)], calls [bus->getNewListenerId()] without a
    test, so for a null [bus] it has no defined result, whatever buses there
    are, and every handle it does give holds the bus it was given.  The test
    for a null [m_bus] is there in [listen], [unlisten], [unlistenAll] and
    the destructor, which would leave every bus alone on such a handle; it
    is missing in the constructor. *)
Theorem handle_without_bus_cannot_be_constructed (h : gmap nat EventBus) :
  Listener_new None h = None
  ∧ (∀ p l h', Listener_new p h = Some (l, h') → ∃ a, p = Some a ∧ m_bus l = Some a)
  ∧ (∀ l, m_bus l = None →
       (∀ ev f, listen l ev f h = h)
       ∧ (∀ ev, unlisten l ev h = h)
       ∧ unlistenAll l h = h
       ∧ Listener_destroy l h = h).
Proof.
  split_and!.
  - reflexivity.
  - intros p l h' Hnew. destruct (Listener_new_holds_bus p h l h' Hnew) as [[a ->] Hl].
    by exists a.
  - intros l Hnull.
    unfold Listener_destroy, listen, unlisten, unlistenAll, if_bus.
    rewrite Hnull. done.
Qed.

(** What a handle with a bus asks of it. *)
Lemma listen_run_op l ev f a b h :
  m_bus l = Some a → h !! a = Some b →
  listen l ev f h !! a = Some (run_op b (Listen (m_listenerId l) ev f)).
Proof.
  intros Ha Hb. unfold listen, if_bus. rewrite Ha, lookup_alter_eq, Hb. done.
Qed.

Lemma unlisten_run_op l ev a b h :
  m_bus l = Some a → h !! a = Some b →
  unlisten l ev h !! a = Some (run_op b (Unlisten (m_listenerId l) ev)).
Proof.
  intros Ha Hb. unfold unlisten, if_bus. rewrite Ha, lookup_alter_eq, Hb. done.
Qed.

Lemma unlistenAll_run_op l a b h :
  m_bus l = Some a → h !! a = Some b →
  unlistenAll l h !! a = Some (run_op b (UnlistenAll (m_listenerId l))).
Proof.
  intros Ha Hb. unfold unlistenAll, if_bus. rewrite Ha, lookup_alter_eq, Hb. done.
Qed.

Lemma removeListener_all_lookup lid b ev :
  m_listeners (removeListener_all lid b) !! ev = m_listeners b !! ev ≫= prune lid.
Proof. cbn. apply lookup_omap. Qed.

Lemma quiet_listeners_run_op b o :
  match o with
  | Listen _ _ (Some t) => ∀ v, fn_posts t v = []
  | _ => True
  end →
  quiet_listeners (m_listeners b) → quiet_listeners (m_listeners (run_op b o)).
Proof.
  intros Ho Hq ev els el c t v.
  destruct o as [lid ev' f|lid ev'|lid]; cbn [run_op].
  - cbn. destruct (decide (ev' = ev)) as [->|Hne].
    + rewrite lookup_insert_eq. intros [= <-] Hel Hc Hcb.
      destruct (elem_of_add_call _ _ _ _ _ Hel Hc) as [->|(el' & Hel' & Hc')].
      * cbn in Hcb. subst f. apply Ho.
      * destruct (m_listeners b !! ev) as [els0|] eqn:E; cbn in Hel'.
        -- by eapply Hq.
        -- by apply elem_of_nil in Hel'.
    + rewrite lookup_insert_ne by done. apply Hq.
  - destruct (decide (ev = ev')) as [->|Hne].
    + rewrite removeListener_lookup.
      destruct (m_listeners b !! ev') as [els0|] eqn:E; cbn; [|done].
      intros [_ ->]%prune_Some [_ Hel]%list_elem_of_filter. by eapply Hq.
    + rewrite removeListener_lookup_ne by done. apply Hq.
  - rewrite removeListener_all_lookup.
    destruct (m_listeners b !! ev) as [els0|] eqn:E; cbn; [|done].
    intros [_ ->]%prune_Some [_ Hel]%list_elem_of_filter. by eapply Hq.
Qed.

Lemma quiet_two_subscribers : quiet_listeners (m_listeners two_subscribers).
Proof.
  unfold two_subscribers, run_ops. cbn [foldl].
  do 3 (apply quiet_listeners_run_op; [done|]).
  intros ev els el c t v. cbn. by rewrite lookup_empty.
Qed.

Lemma quiet_listeners_run_ops b ops :
  Forall (λ o, match o with
               | Listen _ _ (Some t) => ∀ v, fn_posts t v = []
               | _ => True
               end) ops →
  quiet_listeners (m_listeners b) → quiet_listeners (m_listeners (run_ops b ops)).
Proof.
  intros Hops. revert b. induction Hops as [|o ops Ho _ IH]; intros b Hq; [done|].
  cbn. by apply IH, quiet_listeners_run_op.
Qed.

Lemma calls_trace_omap cs e :
  calls_trace cs e = (λ t, (fn_name t, any_value e)) <$> omap cb cs.
Proof.
  induction cs as [|c cs IH]; [done|].
  unfold calls_trace in *. cbn. destruct (cb c) as [t|]; cbn; by rewrite IH.
Qed.

(** ** Empty callbacks *)

Lemma with_listeners_same w : with_listeners (m_listeners (bus w)) w = w.
Proof. destruct w as [[i m q] tr]. done. Qed.

Lemma oblivious_skip : oblivious skip.
Proof. done. Qed.

Lemma oblivious_seq a1 a2 : oblivious a1 → oblivious a2 → oblivious (a1 ;; a2)%act.
Proof.
  intros H1 H2 m w. unfold seq. rewrite H1.
  destruct (a1 w) as [w1| |]; cbn; [apply H2|done..].
Qed.

Lemma oblivious_for_each {T} (body : T → World → outcome) (v : list T) :
  (∀ x, oblivious (body x)) → oblivious (for_each body v).
Proof.
  intros Hb. induction v as [|x v IH]; [apply oblivious_skip|].
  cbn. by apply oblivious_seq.
Qed.

Lemma oblivious_check_iterators buf : oblivious (check_iterators buf).
Proof. intros m w. unfold check_iterators. cbn. by destruct (decide _). Qed.

Lemma oblivious_clear_postponded : oblivious clear_postponded.
Proof. done. Qed.

Section EmptyCallbacks.
Context `{G : GrowthPolicy}.

Lemma oblivious_post e : oblivious (post e).
Proof. done. Qed.

Lemma oblivious_call t v : oblivious (call t v).
Proof.
  apply oblivious_seq; [done|]. apply oblivious_for_each, oblivious_post.
Qed.

Lemma oblivious_execute c e : oblivious (execute c e).
Proof.
  unfold execute. destruct (cb c) as [t|]; [|apply oblivious_skip].
  destruct (decide _); [apply oblivious_call|done].
Qed.

Lemma oblivious_run_calls cs e : oblivious (run_calls cs e).
Proof. apply oblivious_for_each. intros c. apply oblivious_execute. Qed.

Lemma oblivious_dispatch els e : oblivious (dispatch els e).
Proof. apply oblivious_for_each. intros el. apply oblivious_run_calls. Qed.

Lemma execute_empty c e w : cb c = None → execute c e w = Done w.
Proof. intros Hc. unfold execute. by rewrite Hc. Qed.

Lemma run_calls_skip_empty pre c post e w :
  cb c = None → run_calls (pre ++ c :: post) e w = run_calls (pre ++ post) e w.
Proof.
  intros Hc. unfold run_calls. rewrite !for_each_app. unfold seq.
  destruct (for_each _ pre w) as [w1| |]; [|done..].
  cbn [for_each]. unfold seq. by rewrite execute_empty.
Qed.

Lemma run_calls_strip cs e w :
  run_calls (filter (λ c, is_Some (cb c)) cs) e w = run_calls cs e w.
Proof.
  revert w. induction cs as [|c cs IH]; intros w; [done|].
  destruct (cb c) as [t|] eqn:E.
  - rewrite filter_cons_True by (by rewrite E).
    unfold run_calls. cbn [for_each]. unfold seq.
    destruct (execute c e w) as [w1| |]; [|done..]. apply IH.
  - rewrite filter_cons_False by (rewrite E; by intros [? ?]).
    rewrite IH. unfold run_calls at 2. cbn [for_each]. unfold seq.
    by rewrite execute_empty.
Qed.

Lemma dispatch_strip els e w :
  dispatch (strip_group <$> els) e w = dispatch els e w.
Proof.
  revert w. induction els as [|el els IH]; intros w; [done|].
  unfold dispatch. cbn [fmap list_fmap for_each]. unfold seq.
  cbn [strip_group calls]. rewrite run_calls_strip.
  destruct (run_calls (calls el) e w) as [w1| |]; [|done..]. apply IH.
Qed.

Lemma immediate_any_strip ev e w :
  immediate_any ev e (with_listeners (strip_null (m_listeners (bus w))) w) =
    map_outcome (with_listeners (strip_null (m_listeners (bus w))))
      (immediate_any ev e w).
Proof.
  unfold immediate_any. cbn [with_listeners bus set_listeners m_listeners].
  unfold strip_null at 1. rewrite lookup_fmap.
  destruct (m_listeners (bus w) !! ev) as [els|]; cbn; [|done].
  rewrite <-(dispatch_strip els e w). apply oblivious_dispatch.
Qed.

Lemma process_loop_strip buf pes w :
  process_loop buf pes (with_listeners (strip_null (m_listeners (bus w))) w) =
    map_outcome (with_listeners (strip_null (m_listeners (bus w))))
      (process_loop buf pes w).
Proof.
  revert w. induction pes as [|pe pes IH]; intros w; [done|].
  cbn [process_loop]. unfold seq at 1 3. rewrite immediate_any_strip.
  pose proof (appends_immediate_any (pe_id pe) (pe_event pe) w) as Hg.
  destruct (immediate_any _ _ w) as [w2|w2|]; cbn [map_outcome]; [|done..].
  rewrite <-(grows_listeners _ _ Hg).
  unfold seq. rewrite oblivious_check_iterators.
  unfold check_iterators.
  destruct (decide _); cbn [map_outcome]; [|done].
  apply IH.
Qed.

(** Callbacks of the event's type around an empty one: all of them are
    called. *)
Lemma run_calls_around_empty (ts1 ts2 : list target) c e w :
  cb c = None →
  ∃ w', run_calls ((MkCallback (any_type e) <$> (Some <$> ts1))
                   ++ c :: (MkCallback (any_type e) <$> (Some <$> ts2))) e w = Done w'
        ∧ trace w' = trace w ++ ((λ t, (fn_name t, any_value e)) <$> (ts1 ++ ts2)).
Proof.
  intros Hc. rewrite run_calls_skip_empty by done.
  destruct (run_calls_done
              ((MkCallback (any_type e) <$> (Some <$> ts1))
               ++ (MkCallback (any_type e) <$> (Some <$> ts2))) e w)
    as (w' & Hw' & Ht).
  { apply Forall_app. split; apply Forall_fmap, Forall_forall; by intros. }
  exists w'. split; [exact Hw'|].
  by rewrite Ht, calls_trace_app, !calls_trace_targets, fmap_app.
Qed.

(** C10: [listen] with an empty function stores the callback like any other;
    [execute] on it returns at once, whatever the event; in a run of
    callbacks it is passed over, the run ends as it does without it, and the
    callbacks of the event's type before and after it are all called, in
    their order.  [immediate] of an event whose [std::any] holds the event's
    own type returns after one call of each non-empty callback under its
    key, and on a bus whose callbacks do not post [process] returns after
    these calls for each postponed event, with nothing postponed.
    [immediate] and [process] end the same way, with the same trace and the
    same postponed events, whether the empty callbacks are in the registry or
    have been taken out of it. *)
Theorem empty_callback_is_skipped (w : World) :
  (∀ l ev a b h, m_bus l = Some a → h !! a = Some b →
     ∃ b', listen l ev None h !! a = Some b'
           ∧ calls_for (m_listenerId l) (default [] (m_listeners b' !! ev)) =
               calls_for (m_listenerId l) (default [] (m_listeners b !! ev))
               ++ [ {| cb_event := ev; cb := None |} ])
  ∧ (∀ c e, cb c = None → execute c e w = Done w)
  ∧ (∀ pre c post e, cb c = None →
       run_calls (pre ++ c :: post) e w = run_calls (pre ++ post) e w)
  ∧ (∀ (ts1 ts2 : list target) c e, cb c = None →
       ∃ w', run_calls ((MkCallback (any_type e) <$> (Some <$> ts1))
                        ++ c :: (MkCallback (any_type e) <$> (Some <$> ts2))) e w
             = Done w'
             ∧ trace w' = trace w ++ ((λ t, (fn_name t, any_value e)) <$> (ts1 ++ ts2)))
  ∧ (typed_listeners (m_listeners (bus w)) →
     ∀ x, any_type (to_any x) = event_id x →
       ∃ w', immediate x w = Done w'
             ∧ trace w' =
                 trace w
                 ++ ((λ t, (fn_name t, any_value (to_any x)))
                       <$> omap cb (default [] (m_listeners (bus w) !! event_id x)
                                    ≫= calls)))
  ∧ (typed_listeners (m_listeners (bus w)) →
     typed_queue (data (m_postpondedEvents (bus w))) →
     quiet_listeners (m_listeners (bus w)) →
     process w =
       Done {| bus := set_postponded
                        (MkVector [] (capacity (m_postpondedEvents (bus w)))
                                     (buffer (m_postpondedEvents (bus w))))
                        (bus w);
               trace := trace w
                        ++ delivered (m_listeners (bus w))
                             (data (m_postpondedEvents (bus w))) |})
  ∧ (∀ x, immediate x (with_listeners (strip_null (m_listeners (bus w))) w) =
            map_outcome (with_listeners (strip_null (m_listeners (bus w))))
              (immediate x w))
  ∧ process (with_listeners (strip_null (m_listeners (bus w))) w) =
      map_outcome (with_listeners (strip_null (m_listeners (bus w)))) (process w).
Proof.
  split_and!.
  - intros l ev a b h Ha Hb. eexists. split; [by apply listen_run_op|].
    cbn [run_op]. unfold addListener. cbn [set_listeners m_listeners].
    rewrite lookup_insert_eq.
    apply (add_call_calls (m_listenerId l) {| cb_event := ev; cb := None |}
             (default [] (m_listeners b !! ev))).
  - intros c e. apply execute_empty.
  - intros pre c post e. apply run_calls_skip_empty.
  - intros ts1 ts2 c e. apply run_calls_around_empty.
  - intros Hty x Hx. destruct (immediate_done x w Hty Hx) as (w' & Hw' & Ht).
    exists w'. split; [exact Hw'|]. by rewrite Ht, calls_trace_omap.
  - apply process_quiet.
  - intros x. apply immediate_any_strip.
  - unfold process, seq. cbn zeta.
    cbn [with_listeners bus set_listeners m_postpondedEvents].
    rewrite process_loop_strip.
    destruct (process_loop _ _ w) as [w1| |]; cbn [map_outcome]; done.
Qed.

End EmptyCallbacks.

Lemma typed_with_empty : typed_listeners (m_listeners (bus with_empty)).
Proof. apply typed_listeners_run_ops, typed_listeners_empty. Qed.

Lemma quiet_with_empty : quiet_listeners (m_listeners (bus with_empty)).
Proof.
  apply quiet_listeners_run_ops; [by repeat constructor|].
  intros ev els el c t v. cbn. by rewrite lookup_empty.
Qed.

Lemma empty_callback_is_skipped_witness :
  m_bus bound = Some 0%nat
  ∧ one_bus !! 0%nat = Some two_subscribers
  ∧ typed_listeners (m_listeners (bus with_empty))
  ∧ typed_queue (data (m_postpondedEvents (bus with_empty)))
  ∧ quiet_listeners (m_listeners (bus with_empty))
  ∧ (∃ b', listen bound 1%nat None one_bus !! 0%nat = Some b'
           ∧ calls_for 7 (default [] (m_listeners b' !! 1%nat)) =
               [ {| cb_event := 1; cb := None |} ])
  ∧ execute (G:=doubling) {| cb_event := 1; cb := None |} (Pong 3) with_empty
      = Done with_empty
  ∧ (∃ w', run_calls (G:=doubling)
             [ {| cb_event := 1; cb := Some cb1 |}; {| cb_event := 1; cb := None |};
               {| cb_event := 1; cb := Some cb2 |} ] (Ping 5) with_empty = Done w'
           ∧ trace w' = [(1%nat, 5); (2%nat, 5)])
  ∧ calls_for 1 (default [] (m_listeners (bus with_empty) !! 1%nat)) =
      [ {| cb_event := 1; cb := Some cb1 |}; {| cb_event := 1; cb := None |};
        {| cb_event := 1; cb := Some cb2 |} ]
  ∧ (∃ w', immediate (G:=doubling) (ping 5) with_empty = Done w'
           ∧ trace w' = [(1%nat, 5); (2%nat, 5)])
  ∧ process (G:=doubling) with_empty =
      Done {| bus := set_postponded (MkVector [] 1 1) (bus with_empty);
              trace := [(1%nat, 5); (2%nat, 5)] |}.
Proof.
  assert (typed_queue (data (m_postpondedEvents (bus with_empty)))) as Hq
    by (by repeat constructor).
  destruct (empty_callback_is_skipped (G:=doubling) with_empty)
    as (Hlisten & Hexecute & _ & Hrun & Himm & Hproc & _ & _).
  split; [reflexivity|]. split; [reflexivity|].
  split; [exact typed_with_empty|]. split; [exact Hq|].
  split; [exact quiet_with_empty|]. split_and!.
  - exact (Hlisten bound 1%nat 0%nat two_subscribers one_bus eq_refl eq_refl).
  - exact (Hexecute {| cb_event := 1; cb := None |} (Pong 3) eq_refl).
  - exact (Hrun [cb1] [cb2] {| cb_event := 1; cb := None |} (Ping 5) eq_refl).
  - reflexivity.
  - exact (Himm typed_with_empty (ping 5) eq_refl).
  - exact (Hproc typed_with_empty Hq quiet_with_empty).
Defined.

(** ** A run *)

(** [Ping{5}] reaches the callbacks of both subscribers, the first
    subscriber's first; once that subscriber has revoked its registrations,
    [Ping{7}] reaches the other one only. *)
Example ping_scenario :
  immediate (G:=doubling) (ping 5) {| bus := both_listen; trace := [] |}
    = Done {| bus := both_listen; trace := [(1%nat, 5); (2%nat, 5)] |}
  ∧ immediate (G:=doubling) (ping 7) {| bus := one_left; trace := [] |}
    = Done {| bus := one_left; trace := [(2%nat, 7)] |}.
Proof. split; reflexivity. Qed.

(** * Further properties of the code *)

(** ** The vector helpers *)

Lemma erase_if_filter {T} (pred : T → bool) (v : list T) :
  erase_if pred v = filter (λ x, pred x = false) v.
Proof.
  induction v as [|x v IH]; [done|].
  cbn [erase_if]. destruct (pred x) eqn:E.
  - by rewrite filter_cons_False by (rewrite E; done).
  - by rewrite filter_cons_True, IH.
Qed.

(** X1: [erase_if] keeps exactly the elements the predicate rejects, in their
    order and as often as they occur; a second pass changes nothing, and a
    vector without an accepted element is left as it is. *)
Theorem erase_if_keeps_the_rest {T} (pred : T → bool) (v : list T) :
  erase_if pred v = filter (λ x, pred x = false) v
  ∧ (∀ x, x ∈ erase_if pred v ↔ x ∈ v ∧ pred x = false)
  ∧ erase_if pred v `sublist_of` v
  ∧ erase_if pred (erase_if pred v) = erase_if pred v
  ∧ ((∀ x, x ∈ v → pred x = false) → erase_if pred v = v).
Proof.
  rewrite !erase_if_filter. split_and!.
  - done.
  - intros x. rewrite list_elem_of_filter. tauto.
  - apply sublist_filter.
  - by rewrite list_filter_filter_l.
  - intros Hall. apply filter_all, Forall_forall, Hall.
Qed.

Lemma contains_true {T} `{EqDecision T} (v : list T) (item : T) :
  contains v item = true ↔ item ∈ v.
Proof.
  induction v as [|t v IH]; cbn.
  - split; [done|]. by intros ?%elem_of_nil.
  - rewrite elem_of_cons. destruct (decide (t = item)) as [->|Hne].
    + tauto.
    + rewrite IH. split; [tauto|]. intros [?|?]; [congruence|done].
Qed.

(** X2: [contains] answers [true] exactly for the elements of the vector, so
    [false] on an empty vector, and [false] once [erase_if] has erased the
    element. *)
Theorem contains_is_membership {T} `{EqDecision T} (v : list T) (item : T) :
  (contains v item = true ↔ item ∈ v)
  ∧ (contains v item = false ↔ item ∉ v)
  ∧ contains (erase_if (λ t, bool_decide (t = item)) v) item = false.
Proof.
  assert (contains v item = false ↔ item ∉ v) as Hfalse.
  { rewrite <-contains_true. by destruct (contains v item). }
  split_and!; [apply contains_true|exact Hfalse|].
  destruct (contains (erase_if _ v) item) eqn:E; [|done].
  apply contains_true in E. rewrite erase_if_filter in E.
  apply list_elem_of_filter in E as [E _].
  by rewrite bool_decide_eq_false in E.
Qed.

(** ** Registration and removal together *)

Lemma prune_eq_entry_of lid els :
  prune lid els = entry_of (filter (λ el, listener_id el ≠ lid) els).
Proof. unfold prune. rewrite erase_if_owned_by. by destruct (filter _ els). Qed.

Lemma calls_for_add_call_ne lid lid' c els :
  lid' ≠ lid → calls_for lid' (add_call lid c els) = calls_for lid' els.
Proof.
  intros Hne. induction els as [|el els IH]; cbn.
  - unfold owned_by. cbn. by rewrite (proj2 (Z.eqb_neq lid lid')).
  - destruct (owned_by lid el) eqn:E; cbn.
    + apply owned_by_true in E.
      rewrite (proj2 (owned_by_false lid' el)) by congruence.
      unfold owned_by. cbn. by rewrite (proj2 (Z.eqb_neq (listener_id el) lid')) by congruence.
    + destruct (owned_by lid' el); [done|exact IH].
Qed.

Lemma filter_add_call lid c els :
  filter (λ el, listener_id el ≠ lid) (add_call lid c els) =
    filter (λ el, listener_id el ≠ lid) els.
Proof.
  induction els as [|el els IH]; cbn [add_call].
  - by rewrite filter_cons_False by (cbn; intros ?; done).
  - destruct (owned_by lid el) eqn:E.
    + apply owned_by_true in E.
      by rewrite !filter_cons_False by (cbn; intros ?; done).
    + apply owned_by_false in E.
      by rewrite !filter_cons_True, IH.
Qed.

(** X4: [addListener] leaves every other key, the id counter and the
    postponed events as they were.  Under its key there is afterwards a
    non-empty vector in which the callback is the last one of the listener's
    group, the groups of the other listeners are as before, and the listeners
    are in the same order, with a new one at the end. *)
Theorem addListener_frame (ev : nat) (lid : Z) (c : Callback) (b : EventBus) :
  (∀ ev', ev' ≠ ev →
     m_listeners (addListener ev lid c b) !! ev' = m_listeners b !! ev')
  ∧ (∃ els', m_listeners (addListener ev lid c b) !! ev = Some els'
       ∧ els' ≠ []
       ∧ calls_for lid els' = calls_for lid (default [] (m_listeners b !! ev)) ++ [c]
       ∧ (∀ lid', lid' ≠ lid →
            calls_for lid' els' = calls_for lid' (default [] (m_listeners b !! ev)))
       ∧ listener_id <$> els' =
           (listener_id <$> default [] (m_listeners b !! ev))
           ++ (if decide (lid ∈ listener_id <$> default [] (m_listeners b !! ev))
               then [] else [lid]))
  ∧ m_lastListenerId (addListener ev lid c b) = m_lastListenerId b
  ∧ m_postpondedEvents (addListener ev lid c b) = m_postpondedEvents b.
Proof.
  split_and!; [|eexists; split_and!|done|done].
  - intros ev' Hne. cbn. by rewrite lookup_insert_ne.
  - cbn. apply lookup_insert_eq.
  - apply add_call_nonempty.
  - apply add_call_calls.
  - intros lid' Hne. by apply calls_for_add_call_ne.
  - destruct (decide _) as [Hin|Hnin].
    + by rewrite add_call_ids_present, app_nil_r.
    + by rewrite add_call_ids_absent.
Qed.

Lemma removeListener_stable ev lid b :
  (∀ els, m_listeners b !! ev = Some els → prune lid els = Some els) →
  removeListener ev lid b = b.
Proof.
  intros Hstable. unfold removeListener.
  destruct (m_listeners b !! ev) as [els|] eqn:E; [|done].
  rewrite (Hstable els eq_refl), insert_id by done. apply set_listeners_same.
Qed.

(** X5: a second [removeListener(id, listener_id)] with the same arguments
    changes nothing, on any bus. *)
Theorem removeListener_twice (ev : nat) (lid : Z) (b : EventBus) :
  removeListener ev lid (removeListener ev lid b) = removeListener ev lid b.
Proof.
  apply removeListener_stable. intros els'. rewrite removeListener_lookup.
  destruct (m_listeners b !! ev) as [els|]; cbn; [|done].
  apply prune_prune.
Qed.

(** X6: in a well-formed registry, registering a callback for a listener
    that has no group under the key and then removing that listener from the
    key gives back the bus as it was, key included. *)
Theorem addListener_removeListener (ev : nat) (lid : Z) (c : Callback) (b : EventBus) :
  wf_listeners (m_listeners b) →
  lid ∉ listener_id <$> default [] (m_listeners b !! ev) →
  removeListener ev lid (addListener ev lid c b) = b.
Proof.
  intros Hwf Hnew. unfold removeListener. cbn. rewrite lookup_insert_eq.
  rewrite prune_eq_entry_of, filter_add_call.
  destruct (m_listeners b !! ev) as [els|] eqn:E; cbn in Hnew |- *.
  - rewrite filter_all.
    2: { apply Forall_forall. intros el Hel Heq. apply Hnew.
         rewrite <-Heq. by apply list_elem_of_fmap_2. }
    destruct (Hwf _ _ E) as [Hne _].
    destruct els as [|el els]; [done|]. cbn.
    unfold set_listeners. cbn.
    rewrite insert_insert_eq, insert_id by done. by destruct b.
  - unfold set_listeners. cbn. rewrite delete_insert_eq, delete_id by done.
    by destruct b.
Qed.

Lemma addListener_removeListener_witness :
  wf_listeners (m_listeners two_subscribers)
  ∧ (5 ∉ listener_id <$> default [] (m_listeners two_subscribers !! 1%nat))
  ∧ removeListener 1 5 (addListener 1 5 {| cb_event := 1; cb := Some answer |}
                          two_subscribers) = two_subscribers.
Proof.
  assert (5 ∉ listener_id <$> default [] (m_listeners two_subscribers !! 1%nat))
    as Hnew.
  { vm_compute. intros Hin. repeat (apply elem_of_cons in Hin as [Hin|Hin]; [lia|]).
    by apply elem_of_nil in Hin. }
  split; [exact wf_two_subscribers|]. split; [exact Hnew|].
  exact (addListener_removeListener 1 5 _ two_subscribers wf_two_subscribers Hnew).
Defined.

Lemma removeListener_all_addListener ev lid c b :
  removeListener_all lid (addListener ev lid c b) = removeListener_all lid b.
Proof.
  unfold removeListener_all, set_listeners. cbn. f_equal.
  apply map_eq. intros ev'. rewrite !lookup_omap.
  destruct (decide (ev = ev')) as [<-|Hne].
  - rewrite lookup_insert_eq. cbn. rewrite prune_eq_entry_of, filter_add_call.
    destruct (m_listeners b !! ev) as [els|]; cbn; [|done].
    by rewrite prune_eq_entry_of.
  - by rewrite lookup_insert_ne.
Qed.

Lemma removeListener_all_removeListener ev lid b :
  removeListener_all lid (removeListener ev lid b) = removeListener_all lid b.
Proof.
  assert (m_lastListenerId (removeListener ev lid b) = m_lastListenerId b
          ∧ m_postpondedEvents (removeListener ev lid b) = m_postpondedEvents b)
    as [Hid Hq].
  { unfold removeListener. destruct (m_listeners b !! ev) as [els|]; [|done].
    by destruct (prune lid els). }
  unfold removeListener_all, set_listeners. rewrite Hid, Hq. f_equal.
  apply map_eq. intros ev'. rewrite !lookup_omap.
  destruct (decide (ev' = ev)) as [->|Hne].
  - rewrite removeListener_lookup.
    destruct (m_listeners b !! ev) as [els|]; cbn; [|done].
    destruct (prune lid els) as [els'|] eqn:Hp; cbn; [|done].
    exact (prune_prune _ _ _ Hp).
  - by rewrite removeListener_lookup_ne.
Qed.

(** X7: [removeListener(listener_id)] makes the earlier work of that
    listener on the registry irrelevant, and later removals of it idle: it
    gives the same bus whether or not an [addListener] or a
    [removeListener(id, listener_id)] of the same listener came before, and
    after it a [removeListener(id, listener_id)] of that listener changes
    nothing. *)
Theorem removeListener_all_absorbs (ev : nat) (lid : Z) (c : Callback) (b : EventBus) :
  removeListener_all lid (addListener ev lid c b) = removeListener_all lid b
  ∧ removeListener_all lid (removeListener ev lid b) = removeListener_all lid b
  ∧ removeListener ev lid (removeListener_all lid b) = removeListener_all lid b.
Proof.
  split_and!.
  - apply removeListener_all_addListener.
  - apply removeListener_all_removeListener.
  - apply removeListener_stable. intros els'. rewrite removeListener_all_lookup.
    destruct (m_listeners b !! ev) as [els|]; cbn; [|done].
    apply prune_prune.
Qed.

Lemma removeListener_all_unknown lid b :
  wf_listeners (m_listeners b) → unknown_listener lid (m_listeners b) →
  removeListener_all lid b = b.
Proof.
  intros Hwf Hnew.
  transitivity (set_listeners (m_listeners b) b); [|apply set_listeners_same].
  unfold removeListener_all. f_equal.
  apply map_eq. intros ev. rewrite lookup_omap.
  destruct (m_listeners b !! ev) as [els|] eqn:E; cbn; [|done].
  apply prune_absent; [by destruct (Hwf _ _ E)|].
  apply Forall_forall. intros el Hel. by eapply Hnew.
Qed.

Lemma removeListener_all_twice lid b :
  removeListener_all lid (removeListener_all lid b) = removeListener_all lid b.
Proof.
  unfold removeListener_all, set_listeners. cbn. f_equal.
  apply map_eq. intros ev. rewrite !lookup_omap.
  destruct (m_listeners b !! ev) as [els|]; cbn; [|done].
  destruct (prune lid els) as [els'|] eqn:Hp; cbn; [|done].
  exact (prune_prune _ _ _ Hp).
Qed.

Lemma removeListener_all_run_ops lid ops b :
  Forall (λ o, op_listener o = lid) ops →
  removeListener_all lid (run_ops b ops) = removeListener_all lid b.
Proof.
  intros Hops. revert b. induction Hops as [|o ops Ho _ IH]; intros b; [done|].
  cbn [run_ops foldl]. fold (run_ops (run_op b o) ops). rewrite IH.
  destruct o as [lid' ev f|lid' ev|lid']; cbn in Ho; subst lid'; cbn [run_op].
  - apply removeListener_all_addListener.
  - apply removeListener_all_removeListener.
  - apply removeListener_all_twice.
Qed.

(** X8: when a handle got an id no group of the registry carries, then
    whatever the handle does, [listen], [unlisten] and [unlistenAll] in any
    number and order, its destructor's [removeListener(listener_id)] leaves
    the bus exactly as it was before the handle did anything. *)
Theorem handle_leaves_no_trace (lid : Z) (ops : list handle_op) (b : EventBus) :
  wf_listeners (m_listeners b) →
  unknown_listener lid (m_listeners b) →
  Forall (λ o, op_listener o = lid) ops →
  removeListener_all lid (run_ops b ops) = b.
Proof.
  intros Hwf Hnew Hops.
  by rewrite removeListener_all_run_ops, removeListener_all_unknown.
Qed.

Lemma unknown_listener_empty lid : unknown_listener lid ∅.
Proof. intros ev els el. by rewrite lookup_empty. Qed.

Lemma unknown_listener_run_op lid o b :
  op_listener o ≠ lid →
  unknown_listener lid (m_listeners b) →
  unknown_listener lid (m_listeners (run_op b o)).
Proof.
  intros Ho Hnew ev els el.
  destruct o as [lid' ev' f|lid' ev'|lid']; cbn in Ho; cbn [run_op].
  - cbn. destruct (decide (ev' = ev)) as [->|Hne].
    + rewrite lookup_insert_eq. intros [= <-] Hel Heq.
      apply (list_elem_of_fmap_2 listener_id) in Hel. rewrite Heq in Hel.
      destruct (decide (lid' ∈ listener_id <$> default [] (m_listeners b !! ev)))
        as [Hin|Hnin].
      * rewrite add_call_ids_present in Hel by done.
        apply list_elem_of_fmap in Hel as (el' & Heq' & Hel').
        destruct (m_listeners b !! ev) as [els0|] eqn:E; cbn in Hel'.
        -- by eapply Hnew.
        -- by apply elem_of_nil in Hel'.
      * rewrite add_call_ids_absent in Hel by done.
        apply elem_of_app in Hel as [Hel|Hel%list_elem_of_singleton]; [|done].
        apply list_elem_of_fmap in Hel as (el' & Heq' & Hel').
        destruct (m_listeners b !! ev) as [els0|] eqn:E; cbn in Hel'.
        -- by eapply Hnew.
        -- by apply elem_of_nil in Hel'.
    + rewrite lookup_insert_ne by done. apply Hnew.
  - destruct (decide (ev = ev')) as [->|Hne].
    + rewrite removeListener_lookup.
      destruct (m_listeners b !! ev') as [els0|] eqn:E; cbn; [|done].
      intros [_ ->]%prune_Some [_ Hel]%list_elem_of_filter. by eapply Hnew.
    + rewrite removeListener_lookup_ne by done. apply Hnew.
  - rewrite removeListener_all_lookup.
    destruct (m_listeners b !! ev) as [els0|] eqn:E; cbn; [|done].
    intros [_ ->]%prune_Some [_ Hel]%list_elem_of_filter. by eapply Hnew.
Qed.

Lemma unknown_listener_run_ops lid ops b :
  Forall (λ o, op_listener o ≠ lid) ops →
  unknown_listener lid (m_listeners b) →
  unknown_listener lid (m_listeners (run_ops b ops)).
Proof.
  intros Hops. revert b. induction Hops as [|o ops Ho _ IH]; intros b Hnew; [done|].
  cbn. by apply IH, unknown_listener_run_op.
Qed.

Lemma unknown_9_two_subscribers : unknown_listener 9 (m_listeners two_subscribers).
Proof.
  apply unknown_listener_run_ops; [|apply unknown_listener_empty].
  repeat constructor; cbn; lia.
Qed.

Lemma handle_leaves_no_trace_witness :
  wf_listeners (m_listeners two_subscribers)
  ∧ unknown_listener 9 (m_listeners two_subscribers)
  ∧ Forall (λ o, op_listener o = 9) life_of_9
  ∧ removeListener_all 9 (run_ops two_subscribers life_of_9) = two_subscribers.
Proof.
  assert (Forall (λ o, op_listener o = 9) life_of_9) as Hops
    by (repeat constructor).
  split; [exact wf_two_subscribers|]. split; [exact unknown_9_two_subscribers|].
  split; [exact Hops|].
  exact (handle_leaves_no_trace 9 life_of_9 two_subscribers
           wf_two_subscribers unknown_9_two_subscribers Hops).
Defined.

Lemma prune_prune_comm l1 l2 (o : option (list ListenerCallbacks)) :
  (o ≫= prune l2) ≫= prune l1 = (o ≫= prune l1) ≫= prune l2.
Proof.
  destruct o as [els|]; cbn; [|done].
  rewrite !prune_eq_entry_of, !prune_entry_of, !list_filter_filter.
  f_equal. apply list_filter_iff. intros el. tauto.
Qed.

(** X9: two [removeListener(listener_id)] calls give the same bus in either
    order, so the order in which handles are destroyed does not matter. *)
Theorem removeListener_all_commute (l1 l2 : Z) (b : EventBus) :
  removeListener_all l1 (removeListener_all l2 b) =
    removeListener_all l2 (removeListener_all l1 b).
Proof.
  unfold removeListener_all, set_listeners. cbn. f_equal.
  apply map_eq. intros ev. rewrite !lookup_omap. apply prune_prune_comm.
Qed.

(** ** What every operation keeps *)

Section Steps.
Context `{G : GrowthPolicy}.

(** How [process] ends: returning, it kept registry, id counter and trace
    order; throwing, it also kept every postponed event. *)
Lemma process_outcome w :
  match process w with
  | Done w' =>
      m_listeners (bus w') = m_listeners (bus w)
      ∧ m_lastListenerId (bus w') = m_lastListenerId (bus w)
      ∧ trace w `prefix_of` trace w'
  | BadAnyCast w' => grows w w'
  | Undefined => True
  end.
Proof.
  unfold process, seq. cbn zeta.
  pose proof (process_loop_grows (buffer (m_postpondedEvents (bus w)))
                (data (m_postpondedEvents (bus w))) w) as Hg.
  destruct (process_loop _ _ w) as [w1|w1|]; cbn; [|done..].
  destruct Hg. by split_and!.
Qed.

(** A property of the registry that the three registry operations keep is
    kept by every step of the bus. *)
Lemma bus_step_registry (P : gmap nat (list ListenerCallbacks) → Prop) w w' :
  (∀ ev lid c b, P (m_listeners b) → P (m_listeners (addListener ev lid c b))) →
  (∀ ev lid b, P (m_listeners b) → P (m_listeners (removeListener ev lid b))) →
  (∀ lid b, P (m_listeners b) → P (m_listeners (removeListener_all lid b))) →
  bus_step w w' → P (m_listeners (bus w)) → P (m_listeners (bus w')).
Proof.
  intros Hadd Hrem Hall Hstep HP.
  destruct Hstep as [r Hr|ev lid c|ev lid|lid|e w' He|e w' He|e w' He|w' Hp|w' Hp].
  - unfold getNewListenerId in Hr. destruct (decide _); [|done].
    by injection Hr as <-.
  - by apply Hadd.
  - by apply Hrem.
  - by apply Hall.
  - pose proof (appends_post e w) as Hg. rewrite He in Hg.
    by rewrite (grows_listeners _ _ Hg).
  - pose proof (appends_immediate_any (event_id e) (to_any e) w) as Hg.
    unfold immediate in He. rewrite He in Hg.
    by rewrite (grows_listeners _ _ Hg).
  - pose proof (appends_immediate_any (event_id e) (to_any e) w) as Hg.
    unfold immediate in He. rewrite He in Hg.
    by rewrite (grows_listeners _ _ Hg).
  - pose proof (process_outcome w) as Ho. rewrite Hp in Ho.
    destruct Ho as (-> & _). done.
  - pose proof (process_outcome w) as Ho. rewrite Hp in Ho.
    by rewrite (grows_listeners _ _ Ho).
Qed.

Lemma bus_step_lastListenerId w w' :
  bus_step w w' → m_lastListenerId (bus w) ≤ m_lastListenerId (bus w').
Proof.
  intros Hstep.
  destruct Hstep as [r Hr|ev lid c|ev lid|lid|e w' He|e w' He|e w' He|w' Hp|w' Hp].
  - unfold getNewListenerId in Hr. destruct (decide _); [|done].
    injection Hr as <-. cbn. lia.
  - done.
  - unfold removeListener. cbn.
    destruct (m_listeners (bus w) !! ev) as [els|]; [|done].
    by destruct (prune lid els).
  - done.
  - pose proof (appends_post e w) as Hg. rewrite He in Hg.
    by rewrite (grows_lastListenerId _ _ Hg).
  - pose proof (appends_immediate_any (event_id e) (to_any e) w) as Hg.
    unfold immediate in He. rewrite He in Hg.
    by rewrite (grows_lastListenerId _ _ Hg).
  - pose proof (appends_immediate_any (event_id e) (to_any e) w) as Hg.
    unfold immediate in He. rewrite He in Hg.
    by rewrite (grows_lastListenerId _ _ Hg).
  - pose proof (process_outcome w) as Ho. rewrite Hp in Ho.
    destruct Ho as (_ & -> & _). done.
  - pose proof (process_outcome w) as Ho. rewrite Hp in Ho.
    by rewrite (grows_lastListenerId _ _ Ho).
Qed.

Lemma rtc_bus_step_lastListenerId w w' :
  rtc bus_step w w' → m_lastListenerId (bus w) ≤ m_lastListenerId (bus w').
Proof.
  induction 1 as [|w1 w2 w3 Hstep _ IH]; [done|].
  apply bus_step_lastListenerId in Hstep. lia.
Qed.

(** X3: an id that [getNewListenerId] has given out is smaller than every id
    it gives out later, whatever operations of the bus run in between,
    removals included: ids are never given out twice. *)
Theorem listener_ids_never_repeat (w w' : World) (r1 r2 : Z * EventBus) :
  getNewListenerId (bus w) = Some r1 →
  rtc bus_step (with_bus r1.2 w) w' →
  getNewListenerId (bus w') = Some r2 →
  r1.1 < r2.1.
Proof.
  intros H1 Hsteps H2. apply rtc_bus_step_lastListenerId in Hsteps.
  unfold getNewListenerId in H1, H2.
  destruct (decide _) in H1; [|done]. destruct (decide _) in H2; [|done].
  injection H1 as <-. injection H2 as <-. cbn in *. lia.
Qed.

Lemma full_groups_add_call lid c els :
  Forall (λ el, calls el ≠ []) els →
  Forall (λ el, calls el ≠ []) (add_call lid c els).
Proof.
  induction 1 as [|el els Hel Hels IH]; cbn.
  - by repeat constructor.
  - destruct (owned_by lid el); constructor; try done.
    cbn. by destruct (calls el).
Qed.

Lemma full_groups_registry_ops :
  (∀ ev lid c b, full_groups (m_listeners b) →
                 full_groups (m_listeners (addListener ev lid c b)))
  ∧ (∀ ev lid b, full_groups (m_listeners b) →
                 full_groups (m_listeners (removeListener ev lid b)))
  ∧ (∀ lid b, full_groups (m_listeners b) →
              full_groups (m_listeners (removeListener_all lid b))).
Proof.
  split_and!.
  - intros ev lid c b Hfull ev' els' el. cbn.
    destruct (decide (ev = ev')) as [<-|Hne].
    + rewrite lookup_insert_eq. intros [= <-] Hel.
      assert (Forall (λ el, calls el ≠ []) (default [] (m_listeners b !! ev))) as Hall.
      { destruct (m_listeners b !! ev) as [els|] eqn:E; cbn; [|constructor].
        apply Forall_forall. intros el' Hel'. by eapply Hfull. }
      apply (full_groups_add_call lid c) in Hall.
      by eapply Forall_forall in Hall.
    + rewrite lookup_insert_ne by done. apply Hfull.
  - intros ev lid b Hfull ev' els' el.
    destruct (decide (ev' = ev)) as [->|Hne].
    + rewrite removeListener_lookup.
      destruct (m_listeners b !! ev) as [els|] eqn:E; cbn; [|done].
      intros [_ ->]%prune_Some [_ Hel]%list_elem_of_filter. by eapply Hfull.
    + rewrite removeListener_lookup_ne by done. apply Hfull.
  - intros lid b Hfull ev els' el. rewrite removeListener_all_lookup.
    destruct (m_listeners b !! ev) as [els|] eqn:E; cbn; [|done].
    intros [_ ->]%prune_Some [_ Hel]%list_elem_of_filter. by eapply Hfull.
Qed.

(** X18: in every reachable world every group of the registry holds at least
    one callback: [addListener] never makes a group without one, and the
    removals take whole groups. *)
Theorem groups_are_never_empty (w : World) :
  reachable w → full_groups (m_listeners (bus w)).
Proof.
  unfold reachable. revert w.
  apply (rtc_ind_r (λ w, full_groups (m_listeners (bus w)))).
  - intros ev els el. cbn. by rewrite lookup_empty.
  - intros w1 w2 _ Hstep Hfull.
    destruct full_groups_registry_ops as (Hadd & Hrem & Hall).
    by apply (bus_step_registry full_groups w1 w2).
Qed.

End Steps.

Lemma listener_ids_never_repeat_witness :
  let w := {| bus := new_bus; trace := [] |} in
  let b1 := {| m_lastListenerId := 1; m_listeners := ∅;
               m_postpondedEvents := MkVector [] 0 0 |} in
  let w' := with_bus (removeListener_all 1
                        (addListener 1%nat 1 {| cb_event := 1; cb := Some cb1 |} b1))
              (with_bus b1 w) in
  getNewListenerId (bus w) = Some (1, b1)
  ∧ rtc (bus_step (G:=doubling)) (with_bus b1 w) w'
  ∧ getNewListenerId (bus w') = Some (2, {| m_lastListenerId := 2; m_listeners := ∅;
                                           m_postpondedEvents := MkVector [] 0 0 |})
  ∧ 1 < 2.
Proof.
  intros w b1 w'.
  assert (rtc (bus_step (G:=doubling)) (with_bus b1 w) w') as Hsteps.
  { eapply rtc_l.
    { apply (step_addListener (G:=doubling) _ 1%nat 1 {| cb_event := 1; cb := Some cb1 |}). }
    eapply rtc_l.
    { apply (step_removeListener_all (G:=doubling) _ 1). }
    apply rtc_refl. }
  split; [reflexivity|]. split; [exact Hsteps|]. split; [reflexivity|].
  exact (listener_ids_never_repeat (G:=doubling) w w' (1, b1) _ eq_refl Hsteps eq_refl).
Defined.

Lemma groups_are_never_empty_witness :
  reachable (G:=doubling) ping_with_room
  ∧ full_groups (m_listeners (bus ping_with_room)).
Proof.
  split; [exact reachable_ping_with_room|].
  exact (groups_are_never_empty (G:=doubling) ping_with_room reachable_ping_with_room).
Defined.

(** ** More on dispatch *)

Section MoreDispatch.
Context `{G : GrowthPolicy}.

(** X11: [immediate] always ends, by returning or by throwing
    [std::bad_any_cast]; either way the registry and the id counter are as
    before, the postponed events are the old ones followed by what callbacks
    posted, and the trace is the old one followed by the calls made.  When no
    registered callback posts, the bus is left exactly as it was. *)
Theorem immediate_only_appends (x : event) (w : World) :
  match immediate x w with
  | Done w' | BadAnyCast w' =>
      m_listeners (bus w') = m_listeners (bus w)
      ∧ m_lastListenerId (bus w') = m_lastListenerId (bus w)
      ∧ data (m_postpondedEvents (bus w)) `prefix_of` data (m_postpondedEvents (bus w'))
      ∧ trace w `prefix_of` trace w'
      ∧ (quiet_listeners (m_listeners (bus w)) → bus w' = bus w)
  | Undefined => False
  end.
Proof.
  pose proof (appends_immediate_any (event_id x) (to_any x) w) as Hg.
  pose proof (quiet_immediate_any (event_id x) (to_any x) w) as Hq.
  unfold immediate.
  destruct (immediate_any (event_id x) (to_any x) w) as [w'|w'|]; [| |done].
  - destruct Hg. by split_and!.
  - destruct Hg. by split_and!.
Qed.

Lemma run_calls_throws pre c post t e w :
  Forall (λ c', cb_event c' = any_type e) pre →
  cb c = Some t → cb_event c ≠ any_type e →
  ∃ w', run_calls (pre ++ c :: post) e w = BadAnyCast w'
        ∧ trace w' = trace w ++ calls_trace pre e.
Proof.
  intros Hpre Hc Hne. unfold run_calls. rewrite for_each_app. unfold seq.
  destruct (run_calls_done pre e w Hpre) as (w1 & Hw1 & Ht).
  unfold run_calls in Hw1. rewrite Hw1. cbn [for_each]. unfold seq, execute.
  rewrite Hc, decide_False by (intros Heq; by apply Hne).
  by exists w1.
Qed.

(** X12: when a non-empty callback for another type than the one the
    event's [std::any] holds sits under the key of the event, [immediate]
    throws [std::bad_any_cast] at it: the callbacks before it in dispatch
    order have been called, those after it are not, and the registry is as
    before. *)
Theorem immediate_throws_at_misfiled_callback
    (x : event) (w : World) (els : list ListenerCallbacks)
    (pre post : list Callback) (c : Callback) (t : target) :
  m_listeners (bus w) !! event_id x = Some els →
  els ≫= calls = pre ++ c :: post →
  Forall (λ c', cb_event c' = any_type (to_any x)) pre →
  cb c = Some t →
  cb_event c ≠ any_type (to_any x) →
  ∃ w', immediate x w = BadAnyCast w'
        ∧ trace w' = trace w ++ calls_trace pre (to_any x)
        ∧ m_listeners (bus w') = m_listeners (bus w).
Proof.
  intros Hlook Hsplit Hpre Hc Hne.
  destruct (run_calls_throws pre c post t (to_any x) w Hpre Hc Hne) as (w' & Hw' & Ht).
  exists w'.
  assert (immediate x w = BadAnyCast w') as Himm.
  { unfold immediate, immediate_any. by rewrite Hlook, dispatch_flatten, Hsplit. }
  split_and!; [done..|].
  pose proof (appends_immediate_any (event_id x) (to_any x) w) as Hg.
  unfold immediate in Himm. rewrite Himm in Hg. apply (grows_listeners _ _ Hg).
Qed.

(** X10: on a bus whose callbacks sit under the keys of their own types,
    after [removeListener(listener_id)], [immediate] of an event whose
    [std::any] holds the event's own type returns, having called exactly the
    callbacks of the other listeners under the key of the event, in the order
    they had before: no callback of the removed listener is called again,
    and the registry is the one the removal left. *)
Theorem removed_listener_is_not_called (lid : Z) (x : event) (w : World) :
  typed_listeners (m_listeners (bus w)) →
  any_type (to_any x) = event_id x →
  ∃ w', immediate x (with_bus (removeListener_all lid (bus w)) w) = Done w'
        ∧ trace w' =
            trace w
            ++ calls_trace
                 (filter (λ el, listener_id el ≠ lid)
                    (default [] (m_listeners (bus w) !! event_id x)) ≫= calls)
                 (to_any x)
        ∧ m_listeners (bus w') = m_listeners (removeListener_all lid (bus w)).
Proof.
  intros Hty Hx.
  destruct (immediate_done x (with_bus (removeListener_all lid (bus w)) w))
    as (w' & Hw' & Ht).
  { by apply typed_listeners_removeListener_all. }
  { exact Hx. }
  exists w'. split; [exact Hw'|]. split.
  - rewrite Ht. cbn [with_bus bus trace].
    rewrite removeListener_all_lookup. do 3 f_equal.
    destruct (m_listeners (bus w) !! event_id x) as [els|]; cbn; [|done].
    rewrite prune_eq_entry_of. apply default_entry_of.
  - pose proof (appends_immediate_any (event_id x) (to_any x)
                  (with_bus (removeListener_all lid (bus w)) w)) as Hg.
    unfold immediate in Hw'. rewrite Hw' in Hg. apply (grows_listeners _ _ Hg).
Qed.

(** X13: on a bus whose callbacks and postponed events sit under the keys of
    their own types and whose callbacks do not post, [post] of an event whose
    [std::any] holds the event's own type, followed by [process], returns
    with no event postponed, the vector in the buffer [post] left it in and
    the bus otherwise unchanged, and the trace grown by the calls
    [immediate] makes for each event postponed before and then for the posted
    event. *)
Theorem post_then_process_delivers (x : event) (w : World) :
  typed_listeners (m_listeners (bus w)) →
  typed_queue (data (m_postpondedEvents (bus w))) →
  quiet_listeners (m_listeners (bus w)) →
  any_type (to_any x) = event_id x →
  ∃ w', (post x ;; process)%act w = Done w'
        ∧ data (m_postpondedEvents (bus w')) = []
        ∧ bus w' =
            set_postponded
              (MkVector []
                 (capacity (emplace_back (entry x) (m_postpondedEvents (bus w))))
                 (buffer (emplace_back (entry x) (m_postpondedEvents (bus w)))))
              (bus w)
        ∧ trace w' =
            trace w
            ++ delivered (m_listeners (bus w))
                 (data (m_postpondedEvents (bus w)) ++ [entry x]).
Proof.
  intros Hty Hq Hquiet Hx. unfold seq.
  destruct (post x w) as [w0| |] eqn:Hpost; [|done..].
  injection Hpost as <-.
  set (w0 := {| bus := set_postponded
                         (emplace_back {| pe_id := event_id x; pe_event := to_any x |}
                            (m_postpondedEvents (bus w))) (bus w);
                trace := trace w |}).
  assert (data (m_postpondedEvents (bus w0)) =
          data (m_postpondedEvents (bus w)) ++ [entry x]) as Hdata.
  { cbn. unfold emplace_back. by destruct (decide _). }
  assert (typed_queue (data (m_postpondedEvents (bus w0)))) as Hq0.
  { rewrite Hdata. apply Forall_app. split; [done|]. by repeat constructor. }
  destruct (process_emit_each w0 Hty Hq0) as (w1 & Hw1 & Hp).
  pose proof (quiet_emit_each (data (m_postpondedEvents (bus w0))) w0 Hquiet) as Hb.
  rewrite Hw1 in Hb.
  destruct (emit_each_delivered (data (m_postpondedEvents (bus w0))) w0 Hty Hq0)
    as (w1' & Hw1' & Ht).
  rewrite Hw1 in Hw1'. injection Hw1' as <-.
  rewrite Hp, Hb, decide_True by done.
  eexists. split; [reflexivity|]. cbn [bus trace]. rewrite Hb.
  split_and!; [done|done|].
  rewrite Ht, Hdata. done.
Qed.


(** X14: a [process] right after a [process] that returned changes nothing:
    it returns in the same world. *)
Theorem process_twice (w w' : World) :
  process w = Done w' → process w' = Done w'.
Proof.
  intros Hp. pose proof (process_leaves_nothing w w' Hp) as Hempty.
  unfold process, seq. cbn zeta. rewrite Hempty. cbn.
  destruct w' as [[i m [d c bf]] tr]. cbn in Hempty. by subst d.
Qed.

(** X15: when [process] ends by a [std::bad_any_cast], no postponed event has
    been removed, those already dispatched included; registry and id counter
    are as before and the trace holds the calls made before the throw. *)
Theorem process_throw_keeps_events (w w' : World) :
  process w = BadAnyCast w' →
  data (m_postpondedEvents (bus w)) `prefix_of` data (m_postpondedEvents (bus w'))
  ∧ m_listeners (bus w') = m_listeners (bus w)
  ∧ m_lastListenerId (bus w') = m_lastListenerId (bus w)
  ∧ trace w `prefix_of` trace w'.
Proof.
  intros Hp. pose proof (process_outcome w) as Ho. rewrite Hp in Ho.
  destruct Ho. by split_and!.
Qed.

End MoreDispatch.

Lemma removed_listener_is_not_called_witness :
  let w := {| bus := two_subscribers; trace := [] |} in
  typed_listeners (m_listeners (bus w))
  ∧ ∃ w', immediate (G:=doubling) (ping 5)
            (with_bus (removeListener_all 1 (bus w)) w) = Done w'
          ∧ trace w' = [(2%nat, 5)].
Proof.
  intros w. split; [exact typed_two_subscribers|].
  destruct (removed_listener_is_not_called (G:=doubling) 1 (ping 5) w
              typed_two_subscribers eq_refl) as (w' & Hw' & Ht & _).
  exists w'. split; [exact Hw'|exact Ht].
Defined.

Lemma immediate_throws_at_misfiled_callback_witness :
  let els := [ {| listener_id := 1; calls := [ {| cb_event := 1; cb := Some cb1 |} ] |};
               {| listener_id := 2; calls := [ {| cb_event := 2; cb := Some cb2 |} ] |} ] in
  m_listeners (bus misfiled) !! event_id (ping 5) = Some els
  ∧ els ≫= calls = [ {| cb_event := 1; cb := Some cb1 |} ]
                   ++ {| cb_event := 2; cb := Some cb2 |} :: []
  ∧ Forall (λ c', cb_event c' = any_type (to_any (ping 5)))
      [ {| cb_event := 1; cb := Some cb1 |} ]
  ∧ cb {| cb_event := 2; cb := Some cb2 |} = Some cb2
  ∧ cb_event {| cb_event := 2; cb := Some cb2 |} ≠ any_type (to_any (ping 5))
  ∧ ∃ w', immediate (G:=doubling) (ping 5) misfiled = BadAnyCast w'
          ∧ trace w' = [(1%nat, 5)].
Proof.
  intros els.
  assert (Forall (λ c', cb_event c' = any_type (to_any (ping 5)))
            [ {| cb_event := 1; cb := Some cb1 |} ]) as Hpre by (by repeat constructor).
  assert (cb_event {| cb_event := 2; cb := Some cb2 |} ≠ any_type (to_any (ping 5))) as Hne
    by (cbn; lia).
  split; [reflexivity|]. split; [reflexivity|]. split; [exact Hpre|].
  split; [reflexivity|]. split; [exact Hne|].
  destruct (immediate_throws_at_misfiled_callback (G:=doubling) (ping 5) misfiled els
              [ {| cb_event := 1; cb := Some cb1 |} ] []
              {| cb_event := 2; cb := Some cb2 |} cb2
              eq_refl eq_refl Hpre eq_refl Hne) as (w' & Hw' & Ht & _).
  exists w'. split; [exact Hw'|exact Ht].
Defined.

Lemma post_then_process_delivers_witness :
  let w := {| bus := two_subscribers; trace := [] |} in
  typed_listeners (m_listeners (bus w))
  ∧ typed_queue (data (m_postpondedEvents (bus w)))
  ∧ quiet_listeners (m_listeners (bus w))
  ∧ any_type (to_any (ping 5)) = event_id (ping 5)
  ∧ ∃ w', (post (G:=doubling) (ping 5) ;; process (G:=doubling))%act w = Done w'
          ∧ data (m_postpondedEvents (bus w')) = []
          ∧ bus w' = set_postponded (MkVector [] 1 1) two_subscribers
          ∧ trace w' = [(1%nat, 5); (2%nat, 5)].
Proof.
  intros w.
  assert (typed_queue (data (m_postpondedEvents (bus w)))) as Hq by constructor.
  split; [exact typed_two_subscribers|]. split; [exact Hq|].
  split; [exact quiet_two_subscribers|]. split; [reflexivity|].
  destruct (post_then_process_delivers (G:=doubling) (ping 5) w
              typed_two_subscribers Hq quiet_two_subscribers eq_refl)
    as (w' & Hw' & Hdata & Hbus & Ht).
  exists w'. split; [exact Hw'|]. split; [exact Hdata|].
  split; [exact Hbus|exact Ht].
Defined.


Lemma process_twice_witness :
  let w' := {| bus := set_postponded (MkVector [] 1 1) new_bus; trace := [] |} in
  process (G:=doubling) unheard_ping = Done w'
  ∧ process (G:=doubling) w' = Done w'.
Proof.
  intros w'. split; [reflexivity|].
  exact (process_twice (G:=doubling) unheard_ping w' eq_refl).
Defined.

Lemma process_throw_keeps_events_witness :
  let w' := {| bus := bus misfiled; trace := [(1%nat, 5)] |} in
  process (G:=doubling) misfiled = BadAnyCast w'
  ∧ data (m_postpondedEvents (bus misfiled)) `prefix_of` data (m_postpondedEvents (bus w'))
  ∧ data (m_postpondedEvents (bus w')) = [ {| pe_id := 1; pe_event := Ping 5 |} ].
Proof.
  intros w'. split; [reflexivity|].
  destruct (process_throw_keeps_events (G:=doubling) misfiled w' eq_refl)
    as (Hdata & _).
  split; [exact Hdata|reflexivity].
Defined.

(** ** The public interface and [std::bad_any_cast] *)

Lemma preserves_seq P a1 a2 :
  preserves P a1 → preserves P a2 → preserves P (a1 ;; a2)%act.
Proof.
  intros H1 H2 w HP. unfold seq. specialize (H1 w HP).
  destruct (a1 w) as [w1| |]; [|done..]. by apply H2.
Qed.

Lemma preserves_for_each {T} P (body : T → World → outcome) (v : list T) :
  (∀ x, preserves P (body x)) → preserves P (for_each body v).
Proof.
  intros Hb. induction v as [|x v IH]; [by intros w HP|].
  cbn. by apply preserves_seq.
Qed.

Lemma run_op_postponded b o :
  m_postpondedEvents (run_op b o) = m_postpondedEvents b.
Proof.
  destruct o as [lid ev f|lid ev|lid]; cbn; [done| |done].
  unfold removeListener. destruct (m_listeners b !! ev) as [els|]; [|done].
  by destruct (prune lid els).
Qed.

Lemma preserves_check_iterators P buf : preserves P (check_iterators buf).
Proof. intros w HP. unfold check_iterators. by destruct (decide _). Qed.

Section PublicInterface.
Context `{G : GrowthPolicy}.

Lemma preserves_post x : preserves queue_posted (post x).
Proof.
  intros w Hq. unfold queue_posted in *. cbn. unfold emplace_back.
  assert (pe_id (entry x) = any_type (pe_event (entry x)) ∨ pe_id (entry x) = any_id)
    as Hx by (destruct x; cbn; auto).
  destruct (decide _); cbn; (apply Forall_app; split; [done|by apply Forall_singleton]).
Qed.

Lemma preserves_call t v : preserves queue_posted (call t v).
Proof.
  apply preserves_seq; [by intros w Hq|].
  apply preserves_for_each, preserves_post.
Qed.

Lemma preserves_execute c e : preserves queue_posted (execute c e).
Proof.
  unfold execute. destruct (cb c) as [t|]; [|by intros w Hq].
  destruct (decide _); [apply preserves_call|by intros w Hq].
Qed.

Lemma preserves_immediate_any ev e : preserves queue_posted (immediate_any ev e).
Proof.
  intros w Hq. unfold immediate_any.
  destruct (m_listeners (bus w) !! ev) as [els|]; [|done].
  revert w Hq. apply preserves_for_each. intros el.
  apply preserves_for_each. intros c. apply preserves_execute.
Qed.

Lemma preserves_process_loop buf pes : preserves queue_posted (process_loop buf pes).
Proof.
  induction pes as [|pe pes IH]; [by intros w Hq|].
  cbn [process_loop]. apply preserves_seq; [apply preserves_immediate_any|].
  apply preserves_seq; [apply preserves_check_iterators|exact IH].
Qed.

Lemma preserves_process : preserves queue_posted process.
Proof.
  intros w Hq. unfold process, seq. cbn zeta.
  pose proof (preserves_process_loop (buffer (m_postpondedEvents (bus w)))
                (data (m_postpondedEvents (bus w))) w Hq) as Hloop.
  destruct (process_loop _ _ w) as [w1|w1|]; [|done..].
  unfold queue_posted. cbn. constructor.
Qed.

Lemma api_step_typed w w' :
  api_step w w' →
  typed_listeners (m_listeners (bus w)) ∧ queue_posted w →
  typed_listeners (m_listeners (bus w')) ∧ queue_posted w'.
Proof.
  intros Hstep [Hty Hq].
  destruct Hstep as [r Hr|o _|x w' He|x w' He|x w' He|w' Hp|w' Hp].
  - unfold getNewListenerId in Hr. destruct (decide _); [|done].
    by injection Hr as <-.
  - split.
    + by apply typed_listeners_run_op.
    + unfold queue_posted. cbn. by rewrite run_op_postponded.
  - split.
    + pose proof (appends_post x w) as Hg. rewrite He in Hg.
      by rewrite (grows_listeners _ _ Hg).
    + pose proof (preserves_post x w Hq) as Hq'. by rewrite He in Hq'.
  - unfold immediate in He. split.
    + pose proof (appends_immediate_any (event_id x) (to_any x) w) as Hg. rewrite He in Hg.
      by rewrite (grows_listeners _ _ Hg).
    + pose proof (preserves_immediate_any (event_id x) (to_any x) w Hq) as Hq'.
      by rewrite He in Hq'.
  - unfold immediate in He. split.
    + pose proof (appends_immediate_any (event_id x) (to_any x) w) as Hg. rewrite He in Hg.
      by rewrite (grows_listeners _ _ Hg).
    + pose proof (preserves_immediate_any (event_id x) (to_any x) w Hq) as Hq'.
      by rewrite He in Hq'.
  - split.
    + pose proof (process_outcome w) as Ho. rewrite Hp in Ho.
      destruct Ho as (-> & _). done.
    + pose proof (preserves_process w Hq) as Hq'. by rewrite Hp in Hq'.
  - split.
    + pose proof (process_outcome w) as Ho. rewrite Hp in Ho.
      by rewrite (grows_listeners _ _ Ho).
    + pose proof (preserves_process w Hq) as Hq'. by rewrite Hp in Hq'.
Qed.

Lemma api_reachable_typed w :
  api_reachable w → typed_listeners (m_listeners (bus w)) ∧ queue_posted w.
Proof.
  revert w. unfold api_reachable.
  apply (rtc_ind_r (λ w, typed_listeners (m_listeners (bus w)) ∧ queue_posted w)).
  - split; [apply typed_listeners_empty|constructor].
  - intros w1 w2 _ Hstep HI. by apply (api_step_typed w1 w2).
Qed.

(** Callbacks for other types than the one the [std::any] holds: the empty
    ones are passed over, the first non-empty one throws. *)
Lemma run_calls_mismatch cs e w :
  Forall (λ c, cb_event c ≠ any_type e) cs →
  run_calls cs e w =
    if decide (Exists (λ c, is_Some (cb c)) cs) then BadAnyCast w else Done w.
Proof.
  induction 1 as [|c cs Hc _ IH].
  - cbn. rewrite decide_False; [done|]. by intros ?%Exists_nil.
  - unfold run_calls. cbn [for_each]. unfold seq, execute.
    destruct (cb c) as [t|] eqn:E.
    + rewrite decide_False by (intros Heq; by apply Hc).
      rewrite decide_True; [done|]. apply Exists_cons. left. by rewrite E.
    + cbn. etrans; [exact IH|].
      destruct (decide (Exists _ cs)) as [Hex|Hnex].
      * rewrite decide_True; [done|]. apply Exists_cons. by right.
      * rewrite decide_False; [done|].
        intros [Hc'|Hex]%Exists_cons; [|done]. rewrite E in Hc'. by destruct Hc'.
Qed.

(** X16: in every world that the public interface can bring about from a
    new bus (handles constructed and destroyed, [listen], [unlisten],
    [unlistenAll], [post], [immediate], [process], returning or throwing),
    every callback sits under the key of its own event type, and every
    postponed event sits under the key of the type its [std::any] holds or
    under the key of [std::any].  Hence [immediate] of an event whose
    [std::any] holds the event's own type returns, having called every
    non-empty callback under its key, and so does it for every value that is
    not itself a [std::any]; and [process] ends by a [std::bad_any_cast] only
    if an event was posted as a [std::any] that holds a value of another
    type. *)
Theorem public_interface_throws_only_for_any (w : World) :
  api_reachable w →
  typed_listeners (m_listeners (bus w))
  ∧ queue_posted w
  ∧ (∀ x, any_type (to_any x) = event_id x →
       ∃ w', immediate x w = Done w'
             ∧ trace w' =
                 trace w
                 ++ calls_trace (default [] (m_listeners (bus w) !! event_id x) ≫= calls)
                      (to_any x))
  ∧ (∀ ty v, ∃ w', immediate (Plain ty v) w = Done w')
  ∧ (∀ w', process w = BadAnyCast w' →
       ∃ pe, pe ∈ data (m_postpondedEvents (bus w))
             ∧ pe_id pe = any_id ∧ any_type (pe_event pe) ≠ any_id).
Proof.
  intros Hr. destruct (api_reachable_typed w Hr) as [Hty Hq].
  split_and!; [done..| | |].
  - intros x Hx. by apply immediate_done.
  - intros ty v. destruct (immediate_done (Plain ty v) w Hty eq_refl) as (w' & Hw' & _).
    by exists w'.
  - intros w' Hp.
    destruct (decide (typed_queue (data (m_postpondedEvents (bus w))))) as [Htq|Hntq].
    + destruct (process_emit_each w Hty Htq) as (w1 & _ & Hp').
      rewrite Hp' in Hp. by destruct (decide _).
    + apply not_Forall_Exists in Hntq; [|apply _].
      apply Exists_exists in Hntq as (pe & Hpe & Hne).
      exists pe. split; [exact Hpe|].
      unfold queue_posted in Hq.
      pose proof (proj1 (Forall_forall _ _) Hq pe Hpe) as [Heq|Heq]; [done|].
      split; [exact Heq|]. intros Ha. apply Hne. cbn. congruence.
Qed.

(** X22: in a registry whose callbacks sit under the keys of their own types
    (as in every world the public interface brings about), [immediate] of a
    [std::any] that holds a value of another type calls nobody: it returns in
    the world it started in when no callback for [std::any] is registered or
    all of them are empty functions, and otherwise ends by a
    [std::bad_any_cast] in the world it started in. *)
Theorem immediate_of_any_calls_nobody (a : any) (w : World) :
  typed_listeners (m_listeners (bus w)) →
  any_type a ≠ any_id →
  immediate (Erased a) w =
    if decide (Exists (λ c, is_Some (cb c))
                 (default [] (m_listeners (bus w) !! any_id) ≫= calls))
    then BadAnyCast w else Done w.
Proof.
  intros Hty Ha. unfold immediate, immediate_any. cbn [event_id to_any].
  destruct (m_listeners (bus w) !! any_id) as [els|] eqn:E; cbn [default].
  - rewrite dispatch_flatten. apply run_calls_mismatch.
    eapply Forall_impl; [by eapply typed_listeners_calls|].
    intros c Hc. cbn in Hc. congruence.
  - cbn. rewrite decide_False; [done|]. by intros ?%Exists_nil.
Qed.

End PublicInterface.

Lemma api_reachable_ping_posted : api_reachable (G:=doubling) ping_posted.
Proof.
  unfold api_reachable.
  eapply rtc_l.
  { eapply (api_Listener (G:=doubling)). reflexivity. }
  eapply rtc_l.
  { eapply (api_Listener (G:=doubling)). reflexivity. }
  eapply rtc_l.
  { apply (api_handle (G:=doubling) _ (Listen 1 1%nat (Some cb1))). cbn. lia. }
  eapply rtc_l.
  { apply (api_handle (G:=doubling) _ (Listen 2 1%nat (Some cb2))). cbn. lia. }
  eapply rtc_l.
  { eapply (api_post (G:=doubling) _ (ping 5)). reflexivity. }
  apply rtc_refl.
Qed.

Lemma api_reachable_any_posted : api_reachable (G:=doubling) any_posted.
Proof.
  unfold api_reachable.
  eapply rtc_l.
  { eapply (api_Listener (G:=doubling)). reflexivity. }
  eapply rtc_l.
  { apply (api_handle (G:=doubling) _ (Listen 1 any_id (Some cb1))). cbn. lia. }
  eapply rtc_l.
  { eapply (api_post (G:=doubling) _ (Erased (Ping 5))). reflexivity. }
  apply rtc_refl.
Qed.

Lemma public_interface_throws_only_for_any_witness :
  api_reachable (G:=doubling) ping_posted
  ∧ api_reachable (G:=doubling) any_posted
  ∧ (∃ w', immediate (G:=doubling) (ping 7) ping_posted = Done w'
           ∧ trace w' = [(1%nat, 7); (2%nat, 7)])
  ∧ process (G:=doubling) any_posted = BadAnyCast any_posted
  ∧ ∃ pe, pe ∈ data (m_postpondedEvents (bus any_posted))
          ∧ pe_id pe = any_id ∧ any_type (pe_event pe) ≠ any_id.
Proof.
  destruct (public_interface_throws_only_for_any (G:=doubling) ping_posted
              api_reachable_ping_posted) as (_ & _ & Himm & _ & _).
  destruct (public_interface_throws_only_for_any (G:=doubling) any_posted
              api_reachable_any_posted) as (_ & _ & _ & _ & Hproc).
  split; [exact api_reachable_ping_posted|].
  split; [exact api_reachable_any_posted|].
  split; [exact (Himm (ping 7) eq_refl)|].
  split; [reflexivity|].
  exact (Hproc any_posted eq_refl).
Defined.

Lemma typed_any_listeners : typed_listeners (m_listeners any_listeners).
Proof. apply typed_listeners_run_ops, typed_listeners_empty. Qed.

Lemma immediate_of_any_calls_nobody_witness :
  let w := {| bus := any_listeners; trace := [] |} in
  typed_listeners (m_listeners (bus w))
  ∧ any_type (Ping 5) ≠ any_id
  ∧ immediate (G:=doubling) (Erased (Ping 5)) w = BadAnyCast w
  ∧ immediate (G:=doubling) (Erased (Ping 5)) {| bus := two_subscribers; trace := [] |}
      = Done {| bus := two_subscribers; trace := [] |}.
Proof.
  intros w.
  assert (any_type (Ping 5) ≠ any_id) as Hne by (cbn; unfold any_id; lia).
  split; [exact typed_any_listeners|]. split; [exact Hne|]. split.
  - rewrite (immediate_of_any_calls_nobody (G:=doubling) (Ping 5) w
               typed_any_listeners Hne).
    reflexivity.
  - rewrite (immediate_of_any_calls_nobody (G:=doubling) (Ping 5)
               {| bus := two_subscribers; trace := [] |} typed_two_subscribers Hne).
    reflexivity.
Defined.

(** ** The life of a handle *)

Lemma listen_fold l a b h regs :
  m_bus l = Some a →
  foldl (λ h' r, listen l r.1 r.2 h') (<[a := b]> h) regs =
    <[a := run_ops b (listens (m_listenerId l) regs)]> h.
Proof.
  intros Ha. revert b. induction regs as [|r regs IH]; intros b; [done|].
  cbn [foldl listens fmap list_fmap run_ops]. unfold listen at 2, if_bus.
  rewrite Ha, alter_insert_eq. rewrite IH. done.
Qed.

(** X17: a handle constructed on a bus, in whose well-formed registry no
    group carries the id the handle gets, may [listen] any number of times;
    when it is destroyed, every bus is again as it was right after the
    construction: nothing of the handle is left in any registry. *)
Theorem scoped_handle_restores_registry
    (a : nat) (b : EventBus) (h h1 : gmap nat EventBus) (l : Listener)
    (regs : list (nat * option target)) :
  h !! a = Some b →
  wf_listeners (m_listeners b) →
  unknown_listener (m_lastListenerId b + 1) (m_listeners b) →
  Listener_new (Some a) h = Some (l, h1) →
  Listener_destroy l (foldl (λ h' r, listen l r.1 r.2 h') h1 regs) = h1.
Proof.
  intros Hb Hwf Hnew Hctor. unfold Listener_new in Hctor. cbn in Hctor.
  rewrite Hb in Hctor. cbn in Hctor. unfold getNewListenerId in Hctor.
  destruct (decide _) as [Hlt|]; [|done]. cbn in Hctor.
  injection Hctor as <- <-.
  rewrite listen_fold by done.
  unfold Listener_destroy, unlistenAll, if_bus. cbn [m_bus m_listenerId].
  rewrite alter_insert_eq. f_equal.
  rewrite removeListener_all_run_ops.
  - by apply removeListener_all_unknown.
  - unfold listens. apply Forall_fmap, Forall_forall. by intros r _.
Qed.

Lemma unknown_3_two_subscribers : unknown_listener 3 (m_listeners two_subscribers).
Proof.
  apply unknown_listener_run_ops; [|apply unknown_listener_empty].
  repeat constructor; cbn; lia.
Qed.

Lemma scoped_handle_restores_registry_witness :
  let l := {| m_listenerId := 3; m_bus := Some 0%nat |} in
  let h1 := <[ 0%nat := {| m_lastListenerId := 3;
                           m_listeners := m_listeners two_subscribers;
                           m_postpondedEvents := m_postpondedEvents two_subscribers |} ]>
              counted_store in
  counted_store !! 0%nat = Some two_counted
  ∧ wf_listeners (m_listeners two_counted)
  ∧ unknown_listener (m_lastListenerId two_counted + 1) (m_listeners two_counted)
  ∧ Listener_new (Some 0%nat) counted_store = Some (l, h1)
  ∧ Listener_destroy l (foldl (λ h' r, listen l r.1 r.2 h') h1 some_regs) = h1.
Proof.
  intros l h1.
  split; [reflexivity|]. split; [exact wf_two_subscribers|].
  split; [exact unknown_3_two_subscribers|]. split; [reflexivity|].
  exact (scoped_handle_restores_registry 0%nat two_counted counted_store h1 l some_regs
           eq_refl wf_two_subscribers unknown_3_two_subscribers eq_refl).
Defined.

(** ** Event types do not interfere *)

Section OtherKeys.
Context `{G : GrowthPolicy}.

(** X19: [immediate] of an event looks at the registry only under the key
    of the event's type: with any other registry that holds the same vector
    under that key, it ends the same way, with the same calls, the same
    postponed events and the same id counter.  So registrations and removals
    for other event types do not change what an event reaches. *)
Theorem immediate_reads_one_key
    (x : event) (w : World) (m' : gmap nat (list ListenerCallbacks)) :
  m' !! event_id x = m_listeners (bus w) !! event_id x →
  immediate x (with_listeners m' w) =
    map_outcome (with_listeners m') (immediate x w).
Proof.
  intros Hsame. unfold immediate, immediate_any.
  cbn [with_listeners bus set_listeners m_listeners]. rewrite Hsame.
  destruct (m_listeners (bus w) !! event_id x) as [els|]; [|done].
  apply oblivious_dispatch.
Qed.

End OtherKeys.

Lemma immediate_reads_one_key_witness :
  let w := {| bus := two_subscribers; trace := [] |} in
  let m' := m_listeners (removeListener 2%nat 1
                           (addListener 3%nat 5 {| cb_event := 3; cb := Some answer |}
                              two_subscribers)) in
  m' !! event_id (ping 5) = m_listeners (bus w) !! event_id (ping 5)
  ∧ immediate (G:=doubling) (ping 5) (with_listeners m' w) =
      Done {| bus := set_listeners m' two_subscribers;
              trace := [(1%nat, 5); (2%nat, 5)] |}.
Proof.
  intros w m'. split; [reflexivity|].
  rewrite (immediate_reads_one_key (G:=doubling) (ping 5) w m' eq_refl).
  reflexivity.
Defined.
